(** * inlyse-python: the asynchronous submission-and-poll client

    A shallow embedding of [src/inlyse/cli.py] and [src/inlyse/exceptions.py]:
    the endpoint decorator that turns a raw HTTP response into an
    [InlyseResponse], the lazily created session of [WebClient], the jittered
    back-off of [_wait], the poll loop of [get_analysis] and the submit step
    of [_upload].

    Conventions of the embedding.
    - Python [int] is [Z]; a Python [float] is a finite number, idealised
      as an exact rational [Q]: arithmetic on floats does not round.  An
      [int] too large for a float raises [OverflowError] where the code
      converts it, as in Python.
    - A method of [WebClient] is a computation in the monad [M]: it reads and
      updates the client object together with the observable world (the log
      of requests sent, sleeps and warnings) and either returns a value or
      raises an exception.  Code without effects that may raise lives in
      the error monad [R].
    - The remote service, the random generator and the Python library
      functions the module calls ([int], [datetime.strptime], [urljoin],
      [_parse_content_type_header], [Response.json]) are collected in an
      environment [Env]; every theorem holds for every environment.  The
      service answers every request: what [net] gives is the response the
      session hands back, after the retries of the transport.
    - [time.sleep] is an effect of the world: the log records the duration
      slept; a duration it does not accept raises, as in Python.
    - A request logged is a call of the session; what the transport does
      below it (the retries of the adapter, their own pauses) is not part
      of the log.
    - [logger.debug] output is not recorded; [logger.warning] is.
    - An optional argument of a method is an [option], [None] standing for
      the default of the signature. *)

From Stdlib Require Import ZArith QArith Qminmax Qpower Lia Lqa.
From Stdlib Require Import String List.
From stdpp Require Import base option gmap strings list.

Local Open Scope string_scope.
Local Open Scope list_scope.
Local Open Scope Z_scope.
Local Set Warnings "-register-all".

(** ** Data model *)

(** A decoded JSON document, as [json.loads] builds it: a number is an
    [int] or a [float], a [dict] is kept as its list of items. *)
Inductive JSON : Type :=
| JNull
| JBool (b : bool)
| JInt (z : Z)
| JNum (q : Q)
| JStr (s : string)
| JArr (l : list JSON)
| JObj (items : list (string * JSON)).

(** [InlyseResponse.content]: the parsed JSON value or the raw payload. *)
Inductive Content : Type :=
| CJson (j : JSON)
| CBytes (b : list Byte.byte).

(** [requests.Response]: the header dictionary is case-insensitive and is
    kept under its lower-cased keys. *)
Record HttpResponse : Type := mkHttpResponse {
  status_code : Z;
  headers : gmap string string;
  body : list Byte.byte
}.

Inductive tzinfo : Type := utc.

Record datetime : Type := mkDatetime {
  year : Z; month : Z; day : Z;
  hour : Z; minute : Z; second : Z;
  tz : option tzinfo
}.

(** [dt.replace(tzinfo=...)] *)
Definition replace_tzinfo (dt : datetime) (t : tzinfo) : datetime :=
  mkDatetime (year dt) (month dt) (day dt) (hour dt) (minute dt) (second dt)
             (Some t).

(** The [quota] dictionary built by the endpoint decorator. *)
Record Quota : Type := mkQuota {
  limit : Z;
  remaining : Z;
  reset : datetime
}.

(** A value of a content-type parameter: [True] when the parameter has no
    [=], its text otherwise. *)
Inductive ParamValue : Type :=
| PTrue
| PText (s : string).

Record InlyseResponse : Type := mkInlyseResponse {
  endpoint_url : string;
  status : Z;
  rate_limit : option Quota;
  content_type : string * gmap string ParamValue;
  content : Content
}.

(** The exceptions of [inlyse.exceptions] and the built-in ones the module
    can let escape.  [InlyseApiError.__init__] only sets [self.response]
    from a keyword the module never passes, so [response] is always [None]
    and the positional argument survives in [args]. *)
Inductive Exn : Type :=
| RateLimitExceeded (msg : string)
| MaxRetriesExceeded (msg : string)
| InlyseApiError (args : Content)
| KeyError (key : string)
| TypeError
| ValueError
| JSONDecodeError
| OverflowError.

(** ** Transport configuration *)

(** [timeout]: a float, or a (connect, read) tuple. *)
Inductive Timeout : Type :=
| TFloat (t : Q)
| TTuple (connect read : Q).

Record Retry : Type := mkRetry {
  total : Z;
  backoff_factor : Z;
  status_forcelist : list Z;
  allowed_methods : list string;
  raise_on_status : bool
}.

Record TimeoutHTTPAdapter : Type := mkAdapter {
  adapter_timeout : Timeout;
  max_retries : Retry
}.

(** [TimeoutHTTPAdapter.send]: the timeout the request goes out with. *)
Definition adapter_send (a : TimeoutHTTPAdapter) (timeout : option Timeout)
  : Timeout :=
  match timeout with
  | None => adapter_timeout a
  | Some t => t
  end.

(** [sessions.BaseUrlSession].  [sid] stands for the identity of the Python
    object; [mounts] is the part of [session.adapters] that [mount] sets. *)
Record BaseUrlSession : Type := mkSession {
  sid : nat;
  base_url : string;
  session_headers : gmap string string;
  mounts : gmap string TimeoutHTTPAdapter
}.

Record WebClient : Type := mkWebClient {
  url : string;
  license_key : string;
  timeout : Timeout;
  _api : option BaseUrlSession
}.

(** [WebClient.__init__] *)
Definition WebClient_init (license_key : string) (url : option string)
    (timeout : option Timeout) : WebClient :=
  mkWebClient (default "https://malware.ai" url) license_key
              (default (TTuple (5 # 1) (60 # 1)) timeout) None.

(** ** The observable world *)

Inductive Method : Type := GET | POST.

(** A request path: a literal, or [template.format(id=obj)] kept as the
    template and the object substituted. *)
Inductive UrlPath : Type :=
| Plain (path : string)
| Format (template : string) (id : JSON).

Inductive Payload : Type :=
| NoPayload
| Files (filename : string) (data : list Byte.byte)
| JsonBody (j : JSON).

Record Request : Type := mkRequest {
  req_method : Method;
  req_path : UrlPath;
  req_params : list (string * string);
  req_payload : Payload
}.

Inductive Event : Type :=
| Sent (session : nat) (r : Request)
| Slept (seconds : Q)
| Warned (fmt arg : string).

(** The state a method runs in: the client object [self] and the world.
    [sent] counts the requests answered so far, [drawn] the random numbers
    drawn, [next_sid] the sessions ever created; [closed] lists the
    sessions whose [close()] was called. *)
Record St : Type := mkSt {
  self : WebClient;
  trace : list Event;
  sent : nat;
  drawn : nat;
  next_sid : nat;
  closed : list nat
}.

(** The environment: the service's answer to the [n]-th request, the
    [n]-th outcome of [random.random()] and the library functions. *)
Record Env : Type := mkEnv {
  net : nat -> HttpResponse;
  rnd : nat -> Q;
  py_int : string -> option Z;
  strptime : string -> string -> option datetime;
  urljoin : string -> string -> string;
  _parse_content_type_header : string -> string * gmap string ParamValue;
  json_loads : list Byte.byte -> option JSON
}.

(** ** The monad of methods *)

Definition M (A : Type) : Type := St -> (Exn + A) * St.

Definition ret {A} (a : A) : M A := fun st => (inr a, st).

Definition raise {A} (e : Exn) : M A := fun st => (inl e, st).

Definition bind {A B} (m : M A) (k : A -> M B) : M B :=
  fun st =>
    match m st with
    | (inr a, st') => k a st'
    | (inl e, st') => (inl e, st')
    end.

Notation "'let!' x ':=' m 'in' k" := (bind m (fun x => k))
  (at level 10, x name, m at level 100, k at level 200).

Notation "m '>>' k" := (bind m (fun _ => k))
  (at level 90, right associativity).

(** Computations without effects that may raise. *)
Definition R (A : Type) : Type := (Exn + A)%type.

Definition rbind {A B} (r : R A) (k : A -> R B) : R B :=
  match r with
  | inr a => k a
  | inl e => inl e
  end.

Notation "'let?' x ':=' r 'in' k" := (rbind r (fun x => k))
  (at level 10, x name, r at level 100, k at level 200).

Definition lift {A} (r : R A) : M A := fun st => (r, st).

(** [o] if present, else raise [e]. *)
Definition orraise {A} (e : Exn) (o : option A) : R A :=
  match o with
  | Some a => inr a
  | None => inl e
  end.

Definition get_self : M WebClient := fun st => (inr (self st), st).

Definition set_api (s : option BaseUrlSession) : M unit := fun st =>
  let c := self st in
  (inr tt,
   mkSt (mkWebClient (url c) (license_key c) (timeout c) s)
        (trace st) (sent st) (drawn st) (next_sid st) (closed st)).

Definition emit (e : Event) : M unit := fun st =>
  (inr tt,
   mkSt (self st) (trace st ++ [e]) (sent st) (drawn st) (next_sid st)
        (closed st)).

(** [time.sleep] counts the duration in nanoseconds in 64 bits. *)
Definition sleep_ns_limit : Q := inject_Z (2 ^ 63).

Definition nanoseconds (seconds : Q) : Q := (seconds * inject_Z (10 ^ 9))%Q.

(** [time.sleep]: a negative duration is a [ValueError]; so is one of
    exactly [2^63] nanoseconds, whose count wraps around; a longer one is
    an [OverflowError]. *)
Definition sleep (seconds : Q) : M unit :=
  match (seconds ?= 0)%Q with
  | Lt => raise ValueError
  | _ =>
      match (nanoseconds seconds ?= sleep_ns_limit)%Q with
      | Lt => emit (Slept seconds)
      | Eq => raise ValueError
      | Gt => raise OverflowError
      end
  end.

(** The integers that convert to a float: those that round to a finite
    double. *)
Definition float_max : Z := 2 ^ 1024 - 2 ^ 970.

(** [float(z)], as an operation with a float does it to an [int]
    operand. *)
Definition float_of_int (z : Z) : R Q :=
  if Z.abs z <? float_max then inr (inject_Z z) else inl OverflowError.

(** [2 ** attempt] as the operand of a float: a float already for a
    negative exponent, an [int] to convert otherwise. *)
Definition pow2 (attempt : Z) : R Q :=
  if attempt <? 0 then inr ((2 # 1) ^ attempt)%Q
  else float_of_int (2 ^ attempt).

(** [logger.warning(fmt, arg)] *)
Definition warning (fmt arg : string) : M unit := emit (Warned fmt arg).

(** ** The methods of [WebClient] *)

Section Client.

Context (E : Env).

(** The retry policy and the adapter the [api] property builds. *)
Definition retry_strategy : Retry :=
  mkRetry 3 1 [429; 503] ["GET"] false.

Definition new_adapter (t : Timeout) : TimeoutHTTPAdapter :=
  mkAdapter t retry_strategy.

Definition new_session (id : nat) (c : WebClient) : BaseUrlSession :=
  let adapter := new_adapter (timeout c) in
  mkSession id (url c)
            {[ "Authorization" := "Bearer " +:+ license_key c ]}
            (<["https://" := adapter]> (<["http://" := adapter]> ∅)).

(** The [api] property: the session is created when [_api] holds none. *)
Definition api : M BaseUrlSession := fun st =>
  match _api (self st) with
  | Some s => (inr s, st)
  | None =>
      let c := self st in
      let session := new_session (next_sid st) c in
      (inr session,
       mkSt (mkWebClient (url c) (license_key c) (timeout c) (Some session))
            (trace st) (sent st) (drawn st) (S (next_sid st)) (closed st))
  end.

(** [WebClient.close] *)
Definition close : M unit := fun st =>
  let st' :=
    match _api (self st) with
    | Some s =>
        mkSt (self st) (trace st) (sent st) (drawn st) (next_sid st)
             (sid s :: closed st)
    | None => st
    end in
  set_api None st'.

(** The [api] setter: assigning [None] closes, any other value is ignored. *)
Definition api_setter (value : option BaseUrlSession) : M unit :=
  match value with
  | None => close
  | Some _ => ret tt
  end.

(** [session.request]: the request is logged and answered by the service. *)
Definition request (s : BaseUrlSession) (r : Request) : M HttpResponse :=
  fun st =>
    (inr (net E (sent st)),
     mkSt (self st) (trace st ++ [Sent (sid s) r]) (S (sent st)) (drawn st)
          (next_sid st) (closed st)).

(** [self.api.get(path, params=...)] and [self.api.post(path, ...)] *)
Definition api_get (path : UrlPath) (params : list (string * string))
  : M HttpResponse :=
  let! s := api in request s (mkRequest GET path params NoPayload).

Definition api_post (path : UrlPath) (payload : Payload) : M HttpResponse :=
  let! s := api in request s (mkRequest POST path [] payload).

(** [response.headers[key]] *)
Definition header (response : HttpResponse) (key : string) : R string :=
  orraise (KeyError key) (headers response !! key).

(** The rate-limit part of the decorator. *)
Definition quota_of (response : HttpResponse) : R (option Quota) :=
  match headers response !! "x-ratelimit-remaining" with
  | None => inr None
  | Some _ =>
      let? l := header response "x-ratelimit-limit" in
      let? l := orraise ValueError (py_int E l) in
      let? r := header response "x-ratelimit-remaining" in
      let? r := orraise ValueError (py_int E r) in
      let? t := header response "x-ratelimit-reset" in
      let? t := orraise ValueError (strptime E t "%d-%m-%Y %H:%M:%S") in
      inr (Some (mkQuota l r (replace_tzinfo t utc)))
  end.

(** The content part of the decorator. *)
Definition content_of (mime : string) (response : HttpResponse) : R Content :=
  if decide (mime = "application/json")
  then let? j := orraise JSONDecodeError (json_loads E (body response)) in
       inr (CJson j)
  else inr (CBytes (body response)).

(** What the decorator makes of the response [func] returned; [base] is
    [self.url]. *)
Definition envelope (base path : string) (response : HttpResponse)
  : R InlyseResponse :=
  let? quota := quota_of response in
  let? ct := header response "content-type" in
  let content_type := _parse_content_type_header E ct in
  let? content := content_of (fst content_type) response in
  inr (mkInlyseResponse (urljoin E base path) (status_code response)
                        quota content_type content).

(** The decorator [endpoint(path)] applied to [func]. *)
Definition endpoint (path : string) (func : string -> M HttpResponse)
  : M InlyseResponse :=
  let! response := func path in
  let! c := get_self in
  lift (envelope (url c) path response).

(** [random.random()]: the next outcome, in [0, 1). *)
Definition random : M Q := fun st =>
  (inr (rnd E (drawn st)),
   mkSt (self st) (trace st) (sent st) (S (drawn st)) (next_sid st)
        (closed st)).

(** [random.uniform(a, b)] is [a + (b - a) * random()]. *)
Definition uniform (a b : Q) : M Q :=
  let! u := random in ret (a + (b - a) * u)%Q.

Definition default_cap : Q := 40 # 1.
Definition default_base : Q := 1 # 10.

(** [WebClient._wait] *)
Definition _wait (attempt : Z) (avg_time cap base : Q) : M Q :=
  (if attempt =? 0 then sleep avg_time else ret tt) >>
  let! power := lift (pow2 attempt) in
  let! back_offtime := uniform 0 (Qmin cap (base * power)) in
  sleep back_offtime >>
  ret back_offtime.

(** The decorated endpoint methods. *)
Definition version : M InlyseResponse :=
  endpoint "/version" (fun path => api_get (Plain path) []).

Definition ping : M InlyseResponse :=
  endpoint "/ping" (fun path => api_get (Plain path) []).

Definition stats : M InlyseResponse :=
  endpoint "/api/stats" (fun path => api_get (Plain path) []).

Definition download (analysis_id : JSON) : M InlyseResponse :=
  endpoint "/api/analysis/{id}/download"
           (fun path => api_get (Format path analysis_id) []).

Definition upload_file (filename : string) (data : list Byte.byte)
  : M InlyseResponse :=
  endpoint "/api/files/"
           (fun path => api_post (Plain path) (Files filename data)).

Definition upload_url (u : string) : M InlyseResponse :=
  endpoint "/api/files/url"
           (fun path => api_post (Plain path)
                                 (JsonBody (JObj [("url", JStr u)]))).

Definition upload_owa (u token : string) : M InlyseResponse :=
  endpoint "/api/files/owa"
           (fun path =>
              api_post (Plain path)
                       (JsonBody (JObj [("url", JStr u);
                                        ("token", JStr token)]))).

Definition valid_filters : list string :=
  ["all"; "finished"; "unfinished"; "error"].

(** [WebClient.list_analyses]; [None] is the default argument. *)
Definition list_analyses (filter_ : option string) : M InlyseResponse :=
  endpoint "/api/analysis"
           (fun path =>
              let filter_ := default "all" filter_ in
              let! filter_ :=
                (if decide (filter_ ∈ valid_filters) then ret filter_
                 else warning "Unknown filter %s." filter_ >> ret "all") in
              api_get (Plain path) [("filter", filter_)]).

Definition check (analysis_id : JSON) : M InlyseResponse :=
  endpoint "/api/analysis/{id}"
           (fun path => api_get (Format path analysis_id) []).

Definition rate_limit_msg : string := "Your rate limte exceeded.".

Definition max_retries_msg : string :=
  "Max retries exceeded. Please increase the number of retries or the estimated waiting time.".

(** The [while retries < max_retries] loop of [get_analysis]: [budget] is
    the number of iterations left, [max_retries - retries]. *)
Fixpoint poll (budget : nat) (retries : Z) (analysis_id : JSON)
    (estimated_time : Q) : M InlyseResponse :=
  match budget with
  | O => raise (MaxRetriesExceeded max_retries_msg)
  | S budget' =>
      let! response := check analysis_id in
      if status response =? 200 then ret response
      else if status response =? 202 then
        _wait retries estimated_time default_cap default_base >>
        poll budget' (retries + 1) analysis_id estimated_time
      else if status response =? 429 then
        raise (RateLimitExceeded rate_limit_msg)
      else raise (InlyseApiError (content response))
  end.

Definition default_estimated_time : Q := 583675 # 100000.

(** [WebClient.get_analysis]; [None] is a default argument. *)
Definition get_analysis (analysis_id : JSON) (estimated_time : option Q)
    (max_retries : option Z) : M InlyseResponse :=
  poll (Z.to_nat (default 3 max_retries)) 0 analysis_id
       (default default_estimated_time estimated_time).

(** [obj[key]] for a string key, on the objects [content] can hold: a
    [dict] looks the key up, every other object rejects a string index. *)
Definition dict_get (items : list (string * JSON)) (key : string)
  : option JSON :=
  snd <$> List.find (fun kv => String.eqb (fst kv) key) items.

Definition getitem (obj : Content) (key : string) : R JSON :=
  match obj with
  | CJson (JObj items) => orraise (KeyError key) (dict_get items key)
  | _ => inl TypeError
  end.

(** [obj * f] for a float [f]: a float multiplies, an [int] is converted
    first, [bool] is an [int] of 0 or 1, every other JSON value raises. *)
Definition times_float (obj : JSON) (f : Q) : R Q :=
  match obj with
  | JNum q => inr (q * f)%Q
  | JInt z => let? q := float_of_int z in inr (q * f)%Q
  | JBool b => inr ((if b then 1 else 0) * f)%Q
  | _ => inl TypeError
  end.

(** The upload a scan starts with: the key of [upload_methods] together
    with the keyword arguments of the call. *)
Inductive Upload : Type :=
| file (filename : string) (data : list Byte.byte)
| url_ (u : string)
| owa (u token : string).

Definition upload_methods (up : Upload) : M InlyseResponse :=
  match up with
  | file filename data => upload_file filename data
  | url_ u => upload_url u
  | owa u token => upload_owa u token
  end.

(** [WebClient._upload] *)
Definition _upload (up : Upload) (max_retries : Z) : M InlyseResponse :=
  let! response := upload_methods up in
  if status response =? 429 then raise (RateLimitExceeded rate_limit_msg)
  else if (status response >? 299) || (status response <? 200) then
    raise (InlyseApiError (content response))
  else
    let! t := lift (getitem (content response) "EstimatedAnalysisTime") in
    let! estimated_time := lift (times_float t (2 # 10)) in
    let! id := lift (getitem (content response) "id") in
    get_analysis id (Some estimated_time) (Some max_retries).

Definition scan_file (filename : string) (data : list Byte.byte)
    (max_retries : option Z) : M InlyseResponse :=
  _upload (file filename data) (default 15 max_retries).

Definition scan_url (u : string) (max_retries : option Z)
  : M InlyseResponse :=
  _upload (url_ u) (default 15 max_retries).

Definition scan_owa (u token : string) (max_retries : option Z)
  : M InlyseResponse :=
  _upload (owa u token) (default 15 max_retries).

End Client.

(** ** What a run leaves behind

    The states and logs the theorems speak about. *)

Section Observations.

Context (E : Env).

(** The session the next request goes out on: the one held, or the one the
    [api] property is about to create. *)
Definition current_session (st : St) : nat :=
  match _api (self st) with
  | Some s => sid s
  | None => next_sid st
  end.

(** The state after [self.api] sent [r] and got its answer. *)
Definition dispatched (r : Request) (st : St) : St :=
  let st1 := snd (api st) in
  mkSt (self st1) (trace st1 ++ [Sent (current_session st) r])
       (S (sent st1)) (drawn st1) (next_sid st1) (closed st1).

(** The value of [2 ** attempt] once it is a float. *)
Definition power2 (attempt : Z) : Q :=
  if attempt <? 0 then ((2 # 1) ^ attempt)%Q else inject_Z (2 ^ attempt).

(** The back-off [_wait] computes from the draw [u], with the defaults. *)
Definition jitter (attempt : Z) (u : Q) : Q :=
  (0 + (Qmin default_cap (default_base * power2 attempt) - 0) * u)%Q.

(** A duration [time.sleep] accepts. *)
Definition sleepable (seconds : Q) : Prop :=
  (0 <= seconds)%Q /\ (nanoseconds seconds < sleep_ns_limit)%Q.

(** [random.random()] gives numbers between 0 and 1. *)
Definition unit_draws : Prop :=
  forall n, (0 <= rnd E n)%Q /\ (rnd E n <= 1)%Q.

(** The sleeps of one call of [_wait]. *)
Definition wait_events (attempt : Z) (avg_time : Q) (u : Q) : list Event :=
  (if attempt =? 0 then [Slept avg_time] else []) ++ [Slept (jitter attempt u)].

(** The state after [_wait attempt avg_time]. *)
Definition waited (attempt : Z) (avg_time : Q) (st : St) : St :=
  mkSt (self st)
       (trace st ++ wait_events attempt avg_time (rnd E (drawn st)))
       (sent st) (S (drawn st)) (next_sid st) (closed st).

Definition check_request (analysis_id : JSON) : Request :=
  mkRequest GET (Format "/api/analysis/{id}" analysis_id) [] NoPayload.

(** The outcome of the [k]-th check call made from [st] on. *)
Definition outcome (st : St) (k : nat) : R InlyseResponse :=
  envelope E (url (self st)) "/api/analysis/{id}" (net E (sent st + k)%nat).

Definition pending (st : St) (k : nat) : Prop :=
  exists e, outcome st k = inr e /\ status e = 202.

(** The number of requests in a log. *)
Definition requests (tr : list Event) : nat :=
  List.length (List.filter (fun ev => match ev with Sent _ _ => true | _ => false end) tr).

(** One turn of the loop that found the analysis pending. *)
Definition turn (id : JSON) (retries : Z) (estimated_time : Q) (st : St)
  : St :=
  waited retries estimated_time (dispatched (check_request id) st).

(** The state after [k] turns that all found the analysis pending. *)
Fixpoint turns (k : nat) (id : JSON) (retries : Z) (est : Q) (st : St) : St :=
  match k with
  | O => st
  | S k' => turns k' id (retries + 1) est (turn id retries est st)
  end.

End Observations.

(** An exception that is neither of the three kinds the scan methods
    document. *)
Definition undocumented (x : Exn) : Prop :=
  match x with
  | KeyError _ | TypeError | OverflowError => True
  | _ => False
  end.

(** Session identities in use are below the counter of sessions created. *)
Definition wf (st : St) : Prop :=
  (forall s, _api (self st) = Some s -> (sid s < next_sid st)%nat) /\
  Forall (fun i => (i < next_sid st)%nat) (closed st).


(** ** Further methods of [WebClient] *)

Section Disarm.

Context (E : Env).

Definition disarm_analysis (analysis_id : JSON) : M InlyseResponse :=
  endpoint E "/api/analysis/{id}/disarm"
           (fun path => api_get E (Format path analysis_id) []).

Definition disarm_file (filename : string) (data : list Byte.byte)
  : M InlyseResponse :=
  endpoint E "/api/files/disarm"
           (fun path => api_post E (Plain path) (Files filename data)).

(** [WebClient.disarm] *)
Definition disarm (filename : string) (data : list Byte.byte)
  : M InlyseResponse :=
  let! response := disarm_file filename data in
  if status response =? 200 then ret response
  else if status response =? 429 then
    raise (RateLimitExceeded rate_limit_msg)
  else raise (InlyseApiError (content response)).

End Disarm.

(** [WebClient.__exit__] *)
Definition __exit__ : M unit := close.

(** [with client: body]: [__enter__] hands the client itself to the body,
    [__exit__] runs whether the body returned or raised, and since it
    returns [None] an exception of the body goes on. *)
Definition with_client {A} (body : M A) : M A := fun st =>
  let (result, st1) := body st in
  (result, snd (__exit__ st1)).

(** ** Measures of a log *)

(** The seconds slept in a log. *)
Definition slept (tr : list Event) : Q :=
  fold_right (fun ev acc =>
                match ev with
                | Slept d => (d + acc)%Q
                | _ => acc
                end) (0 # 1) tr.

(** The largest back-off of an attempt, with the defaults of [_wait]. *)
Definition backoff_cap (attempt : Z) : Q :=
  Qmin default_cap (default_base * (2 # 1) ^ attempt).

(** The largest back-off of [k] attempts from [attempt] on. *)
Fixpoint backoff_budget (k : nat) (attempt : Z) : Q :=
  match k with
  | O => 0 # 1
  | S k' => (backoff_cap attempt + backoff_budget k' (attempt + 1))%Q
  end.

(** An event a poll of [id] on session [s] may log: a sleep, or a check
    of [id] sent on [s]. *)
Definition poll_event (s : nat) (id : JSON) (ev : Event) : Prop :=
  match ev with
  | Sent s' r => s' = s /\ r = check_request id
  | Slept _ => True
  | Warned _ _ => False
  end.

(** Every session created so far is the one the client holds or has been
    closed. *)
Definition accounted (st : St) : Prop :=
  forall i, (i < next_sid st)%nat ->
    i ∈ closed st \/ exists s, _api (self st) = Some s /\ sid s = i.

(** The path and the request of an upload. *)
Definition upload_path (up : Upload) : string :=
  match up with
  | file _ _ => "/api/files/"
  | url_ _ => "/api/files/url"
  | owa _ _ => "/api/files/owa"
  end.

Definition upload_request (up : Upload) : Request :=
  mkRequest POST (Plain (upload_path up)) []
    match up with
    | file filename data => Files filename data
    | url_ u => JsonBody (JObj [("url", JStr u)])
    | owa u token => JsonBody (JObj [("url", JStr u); ("token", JStr token)])
    end.

Definition ping_request : Request :=
  mkRequest GET (Plain "/ping") [] NoPayload.

Definition stats_request : Request :=
  mkRequest GET (Plain "/api/stats") [] NoPayload.


(** ** Calls in a row *)

(** A call of a public method that returns an envelope. *)
Inductive Call : Type :=
| call_version
| call_ping
| call_stats
| call_download (analysis_id : JSON)
| call_disarm_analysis (analysis_id : JSON)
| call_upload_file (filename : string) (data : list Byte.byte)
| call_upload_url (u : string)
| call_upload_owa (u token : string)
| call_disarm_file (filename : string) (data : list Byte.byte)
| call_disarm (filename : string) (data : list Byte.byte)
| call_list_analyses (filter_ : option string)
| call_check (analysis_id : JSON)
| call_get_analysis (analysis_id : JSON) (estimated_time : option Q)
                    (max_retries : option Z)
| call_scan_file (filename : string) (data : list Byte.byte)
                 (max_retries : option Z)
| call_scan_url (u : string) (max_retries : option Z)
| call_scan_owa (u token : string) (max_retries : option Z).

Definition perform (E : Env) (c : Call) : M InlyseResponse :=
  match c with
  | call_version => version E
  | call_ping => ping E
  | call_stats => stats E
  | call_download id => download E id
  | call_disarm_analysis id => disarm_analysis E id
  | call_upload_file filename data => upload_file E filename data
  | call_upload_url u => upload_url E u
  | call_upload_owa u token => upload_owa E u token
  | call_disarm_file filename data => disarm_file E filename data
  | call_disarm filename data => disarm E filename data
  | call_list_analyses filter_ => list_analyses E filter_
  | call_check id => check E id
  | call_get_analysis id estimated_time max_retries =>
      get_analysis E id estimated_time max_retries
  | call_scan_file filename data max_retries =>
      scan_file E filename data max_retries
  | call_scan_url u max_retries => scan_url E u max_retries
  | call_scan_owa u token max_retries => scan_owa E u token max_retries
  end.

(** What the body of a [with] block may do with the client: call a
    method, close it, assign to [api], or use the session of [api]
    directly. *)
Inductive Step : Type :=
| do_call (c : Call)
| do_close
| do_set_api (value : option BaseUrlSession)
| do_get (path : UrlPath) (params : list (string * string))
| do_post (path : UrlPath) (payload : Payload).

Inductive Outcome : Type :=
| Enveloped (e : InlyseResponse)
| Raw (r : HttpResponse)
| Nothing.

Definition run_step (E : Env) (s : Step) : M Outcome :=
  match s with
  | do_call c => let! e := perform E c in ret (Enveloped e)
  | do_close => close >> ret Nothing
  | do_set_api value => api_setter value >> ret Nothing
  | do_get path params => let! r := api_get E path params in ret (Raw r)
  | do_post path payload =>
      let! r := api_post E path payload in ret (Raw r)
  end.

(** The steps one after the other, up to the first that raises. *)
Fixpoint run_steps (E : Env) (steps : list Step) : M (list Outcome) :=
  match steps with
  | [] => ret []
  | s :: steps' =>
      let! o := run_step E s in
      let! os := run_steps E steps' in
      ret (o :: os)
  end.

(** A step that leaves the session of the client open. *)
Definition keeps_session (s : Step) : Prop :=
  match s with
  | do_close | do_set_api None => False
  | _ => True
  end.

(** From [st] to [st'] no session was closed, and either the client and
    the sessions are as they were or the client, which held no session,
    now holds the one new session. *)
Definition grows (st st' : St) : Prop :=
  closed st' = closed st /\
  ((self st' = self st /\ next_sid st' = next_sid st) \/
   (_api (self st) = None /\
    (exists s, _api (self st') = Some s /\ sid s = next_sid st) /\
    next_sid st' = S (next_sid st))).

Definition steady {A} (m : M A) : Prop := forall st, grows st (snd (m st)).

(** From [st] to [st'] the sessions stay accounted for, and their number
    does not go down. *)
Definition kept (st st' : St) : Prop :=
  wf st' /\ accounted st' /\ (next_sid st <= next_sid st')%nat.

(** ** The command line front end

    The pre-checks of [main] and the wrapper of one asset in [app.py].
    The message printed before [sys.exit(1)] is kept as its kind, and
    the service answers every request, so the messages for a timeout and
    for an unreachable service do not occur. *)

Inductive Message : Type :=
| Unauthorized
| RateLimited (reset : datetime)
| NotHandled.

(** [response.rate_limit[key]]: [None] cannot be subscripted. *)
Definition rate_limit_item {A} (item : Quota -> A) (q : option Quota)
  : R A :=
  match q with
  | Some q => inr (item q)
  | None => inl TypeError
  end.

(** [WebClient(license_key, url, timeout)] bound to [client]. *)
Definition construct (c : WebClient) : M unit := fun st =>
  (inr tt,
   mkSt c (trace st) (sent st) (drawn st) (next_sid st) (closed st)).

Inductive Failure : Type :=
| Library (x : Exn)
| OSError (filename : string).

Inductive ScanResult : Type :=
| ScanSuccess (asset : string) (response : InlyseResponse)
| ScanFailure (asset : string) (error : Failure).

Section App.

Context (E : Env).

(** The body of the [try] of [main]: a message stands for the exit it
    precedes, a number for the [REMAINING] the commands go on with. *)
Definition pre_checks : M (Message + Z) :=
  let! _ := ping E in
  let! response := stats E in
  if status response =? 401 then ret (inl Unauthorized)
  else
    let! limited :=
      (if status response =? 429 then ret true
       else let! r := lift (rate_limit_item remaining (rate_limit response))
            in ret (r =? 0)) in
    if limited then
      let! t := lift (rate_limit_item reset (rate_limit response)) in
      ret (inl (RateLimited t))
    else
      let! r := lift (rate_limit_item remaining (rate_limit response)) in
      ret (inr r).

(** [except Exception]: any exception of the body becomes the message for
    an exception not handled. *)
Definition handled (body : M (Message + Z)) : M (Message + Z) := fun st =>
  match body st with
  | (inl _, st') => (inr (inl NotHandled), st')
  | (inr r, st') => (inr r, st')
  end.

(** The pre-checks of [main]. *)
Definition main (license_key url : string) (timeout : Q)
  : M (Message + Z) :=
  construct (WebClient_init license_key (Some url) (Some (TFloat timeout)))
  >> with_client (handled pre_checks).

(** The file system: the content of a file that can be read. *)
Context (read : string -> option (list Byte.byte)).

Definition library (m : M InlyseResponse)
  : St -> (Failure + InlyseResponse) * St := fun st =>
  match m st with
  | (inl x, st') => (inl (Library x), st')
  | (inr e, st') => (inr e, st')
  end.

Definition with_file (filename : string)
    (f : string -> list Byte.byte -> M InlyseResponse)
  : St -> (Failure + InlyseResponse) * St := fun st =>
  match read filename with
  | Some data => library (f filename data) st
  | None => (inl (OSError filename), st)
  end.

Definition _scan_file (filename : string) :=
  with_file filename (fun name data => scan_file E name data None).

Definition _disarm_file (filename : string) :=
  with_file filename (fun name data => disarm E name data).

Definition _scan_url (u : string) := library (scan_url E u None).

Definition _get_analyses (analysis_id : string) :=
  library (get_analysis E (JStr analysis_id) None None).

Definition mapper (method : string)
  : option (string -> St -> (Failure + InlyseResponse) * St) :=
  if String.eqb method "scan_file" then Some _scan_file
  else if String.eqb method "scan_url" then Some _scan_url
  else if String.eqb method "disarm_file" then Some _disarm_file
  else if String.eqb method "get_analyses" then Some _get_analyses
  else None.

(** [_api_wrapper(asset, method, client)] *)
Definition _api_wrapper (asset method : string) : St -> ScanResult * St :=
  fun st =>
    match mapper method with
    | None => (ScanFailure asset (Library (KeyError method)), st)
    | Some f =>
        match f asset st with
        | (inr response, st') => (ScanSuccess asset response, st')
        | (inl error, st') => (ScanFailure asset error, st')
        end
    end.

End App.

(** ** A sample environment

    Concrete stand-ins for the library functions, adequate on the inputs
    used in the examples: decimal integers, zero-padded timestamps, a
    content-type header cut at its first semicolon, and a decoder that
    knows a fixed table of documents. *)

Module Sample.

Definition digit (a : Ascii.ascii) : option Z :=
  let n := Z.of_nat (Ascii.nat_of_ascii a) in
  if (48 <=? n) && (n <=? 57) then Some (n - 48) else None.

Fixpoint digits (acc : Z) (s : string) : option Z :=
  match s with
  | EmptyString => Some acc
  | String a s' =>
      match digit a with
      | Some d => digits (10 * acc + d) s'
      | None => None
      end
  end.

Definition int_dec (s : string) : option Z :=
  match s with
  | EmptyString => None
  | _ => digits 0 s
  end.

Definition field (s : string) (start len : nat) : option Z :=
  int_dec (String.substring start len s).

Definition sep (s : string) (pos : nat) (c : string) : bool :=
  String.eqb (String.substring pos 1 s) c.

Definition strptime_padded (data fmt : string) : option datetime :=
  if negb (String.eqb fmt "%d-%m-%Y %H:%M:%S") then None
  else if negb (Nat.eqb (String.length data) 19) then None
  else if negb (sep data 2 "-" && sep data 5 "-" && sep data 10 " "
                && sep data 13 ":" && sep data 16 ":") then None
  else
    d ← field data 0 2; m ← field data 3 2; y ← field data 6 4;
    h ← field data 11 2; mi ← field data 14 2; s ← field data 17 2;
    Some (mkDatetime y m d h mi s None).

Definition join (base path : string) : string := base +:+ path.

Fixpoint until_semicolon (s : string) : string :=
  match s with
  | EmptyString => EmptyString
  | String a s' =>
      if Ascii.eqb a (Ascii.ascii_of_nat 59) then EmptyString else String a (until_semicolon s')
  end.

Definition mime_only (h : string) : string * gmap string ParamValue :=
  (until_semicolon h, ∅).

Definition bytes (s : string) : list Byte.byte := list_byte_of_string s.

Definition upload_doc : JSON :=
  JObj [("id", JStr "X"); ("EstimatedAnalysisTime", JNum (5 # 1))].

Definition result_doc : JSON :=
  JObj [("ID", JStr "X"); ("Label", JStr "benign")].

Definition decode (b : list Byte.byte) : option JSON :=
  let s := string_of_list_byte b in
  if String.eqb s "upload" then Some upload_doc
  else if String.eqb s "result" then Some result_doc
  else if String.eqb s "pending" then Some (JObj [])
  else if String.eqb s "no-id" then
    Some (JObj [("EstimatedAnalysisTime", JStr "soon")])
  else if String.eqb s "no-time" then Some (JObj [("id", JStr "X")])
  else if String.eqb s "huge" then
    Some (JObj [("id", JStr "X");
                ("EstimatedAnalysisTime", JInt (10 ^ 400))])
  else if String.eqb s "error" then Some (JStr "not found")
  else None.

Definition json_headers : gmap string string :=
  {[ "content-type" := "application/json" ]}.

(** A JSON response with the given status whose payload is [doc]. *)
Definition reply (code : Z) (doc : string) : HttpResponse :=
  mkHttpResponse code json_headers (bytes doc).

(** The service answers with the statuses of the script, then 202. *)
Definition script (l : list HttpResponse) (n : nat) : HttpResponse :=
  nth n l (reply 202 "pending").

Definition env (l : list HttpResponse) : Env :=
  mkEnv (script l) (fun _ => 1 # 2) int_dec strptime_padded join mime_only
        decode.

Definition client : WebClient :=
  WebClient_init "test" (Some "http://inlyse.test") None.

Definition start : St := mkSt client [] 0 0 0 [].

End Sample.

(** ** Scenarios on the sample service *)

Module Scenario.

Import Sample.

(** The envelope of a JSON answer to a check call. *)
Definition answer (code : Z) (doc : JSON) : InlyseResponse :=
  mkInlyseResponse "http://inlyse.test/api/analysis/{id}" code None
                   ("application/json", ∅) (CJson doc).

Definition still_pending : HttpResponse := reply 202 "pending".

(** Pending twice, then the result. *)
Definition done_at_third : Env :=
  env [still_pending; still_pending; reply 200 "result"].

(** Pending for ever. *)
Definition never_done : Env := env [].




(** An upload accepted with a document, then the result. *)
Definition accepted (doc : string) : Env :=
  env [reply 200 doc; reply 200 "result"].

(** The envelope of a JSON answer to an upload by URL. *)
Definition receipt (code : Z) (doc : JSON) : InlyseResponse :=
  mkInlyseResponse "http://inlyse.test/api/files/url" code None
                   ("application/json", ∅) (CJson doc).

(** An answer with the rate-limit headers. *)
Definition metered : HttpResponse :=
  mkHttpResponse 200
    (<["x-ratelimit-limit" := "100"]>
       (<["x-ratelimit-remaining" := "99"]>
          (<["x-ratelimit-reset" := "20-03-2023 22:16:47"]> json_headers)))
    (bytes "result").

(** A PDF download. *)
Definition pdf : HttpResponse :=
  mkHttpResponse 200 {[ "content-type" := "application/pdf" ]}
                 (bytes "%PDF-1.7").

(** A client that holds the first session it created. *)
Definition opened : St := snd (api start).

End Scenario.

Import Sample Scenario.

(** * Properties *)

(** ** Runs of the methods *)

Ltac case_raise H :=
  match type of H with
  | context [orraise _ ?o] =>
      let x := fresh "x" in
      let Hx := fresh "H" x in
      destruct o as [x|] eqn:Hx; cbn [orraise rbind] in H;
      [|discriminate H]
  end.

Section Runs.

Context (E : Env).

Lemma requests_app tr1 tr2 :
  requests (tr1 ++ tr2) = (requests tr1 + requests tr2)%nat.
Proof. unfold requests. now rewrite List.filter_app, List.length_app. Qed.

Lemma endpoint_get_run path f ps st :
  endpoint E path (fun p => api_get E (f p) ps) st =
  (envelope E (url (self st)) path (net E (sent st)),
   dispatched (mkRequest GET (f path) ps NoPayload) st).
Proof.
  unfold endpoint, api_get, bind, request, get_self, lift, dispatched,
    current_session, api.
  destruct (_api (self st)); reflexivity.
Qed.

Lemma endpoint_post_run path f payload st :
  endpoint E path (fun p => api_post E (f p) payload) st =
  (envelope E (url (self st)) path (net E (sent st)),
   dispatched (mkRequest POST (f path) [] payload) st).
Proof.
  unfold endpoint, api_post, bind, request, get_self, lift, dispatched,
    current_session, api.
  destruct (_api (self st)); reflexivity.
Qed.

Lemma check_run id st :
  check E id st = (outcome E st 0, dispatched (check_request id) st).
Proof.
  unfold check, outcome. rewrite endpoint_get_run, Nat.add_0_r. reflexivity.
Qed.

Lemma sleep_cases seconds st :
  (sleepable seconds /\
   sleep seconds st =
   (inr tt,
    mkSt (self st) (trace st ++ [Slept seconds]) (sent st) (drawn st)
         (next_sid st) (closed st))) \/
  (~ sleepable seconds /\ exists x, sleep seconds st = (inl x, st)).
Proof.
  unfold sleep, sleepable.
  destruct (seconds ?= 0)%Q eqn:Hc.
  2:{ right. split; [|unfold raise; eauto].
      intros [H0 _]. exact (proj1 (Qge_alt seconds 0) H0 Hc). }
  all: assert (H0 : (0 <= seconds)%Q)
         by (apply (proj2 (Qge_alt seconds 0)); rewrite Hc; discriminate).
  all: destruct (nanoseconds seconds ?= sleep_ns_limit)%Q eqn:Hn.
  all: try (left; split;
            [split; [exact H0|exact (proj2 (Qlt_alt _ _) Hn)]|reflexivity]).
  all: right; (split; [|unfold raise; eauto]).
  all: intros [_ Hns]; apply (proj1 (Qlt_alt _ _)) in Hns; congruence.
Qed.




Lemma pow2_overflow attempt :
  1024 <= attempt -> pow2 attempt = inl OverflowError.
Proof.
  intros Ha. unfold pow2, float_of_int.
  destruct (Z.ltb_spec attempt 0) as [Hneg|Hpos]; [lia|].
  assert (Hle : 2 ^ 1024 <= 2 ^ attempt)
    by (apply Z.pow_le_mono_r; lia).
  assert (Hmax : float_max < 2 ^ 1024) by reflexivity.
  destruct (Z.ltb_spec (Z.abs (2 ^ attempt)) float_max); [lia|reflexivity].
Qed.

Lemma pow2_inr attempt p : pow2 attempt = inr p -> p = power2 attempt.
Proof.
  unfold pow2, power2, float_of_int.
  destruct (attempt <? 0); [now intros [= <-]|].
  destruct (Z.abs (2 ^ attempt) <? float_max); [now intros [= <-]|].
  discriminate.
Qed.

Lemma power2_pow attempt : (power2 attempt == (2 # 1) ^ attempt)%Q.
Proof.
  unfold power2. destruct (Z.ltb_spec attempt 0) as [Hneg|Hpos];
    [reflexivity|].
  now rewrite Zpower_Qpower.
Qed.

Lemma jitter_bounds attempt u :
  (0 <= u)%Q -> (u <= 1)%Q ->
  (0 <= jitter attempt u)%Q /\
  (jitter attempt u <= Qmin (40 # 1) ((1 # 10) * (2 # 1) ^ attempt))%Q.
Proof.
  intros Hu0 Hu1. unfold jitter, default_cap, default_base.
  rewrite power2_pow.
  assert (Hm : (0 <= Qmin (40 # 1) ((1 # 10) * (2 # 1) ^ attempt))%Q).
  { apply Q.min_glb; [easy|].
    apply Qmult_le_0_compat; [easy|]. now apply Qpower_0_le. }
  set (m := Qmin (40 # 1) ((1 # 10) * (2 # 1) ^ attempt)) in *.
  split; nra.
Qed.



(** Whatever [_wait] does, it touches only the log and the count of
    random numbers, and adds to the log nothing, the courtesy sleep of
    attempt 0 alone, or all the sleeps of the attempt. *)
Lemma wait_effect attempt avg_time st :
  let st' := snd (_wait E attempt avg_time default_cap default_base st) in
  self st' = self st /\ sent st' = sent st /\
  next_sid st' = next_sid st /\ closed st' = closed st /\
  exists tr,
    trace st' = trace st ++ tr /\
    (tr = [] \/
     (attempt = 0 /\ sleepable avg_time /\ tr = [Slept avg_time]) \/
     ((attempt = 0 -> sleepable avg_time) /\
      tr = wait_events attempt avg_time (rnd E (drawn st)))).
Proof.
  cbn zeta. unfold _wait, wait_events, uniform, random, bind, ret, lift.
  destruct (Z.eqb_spec attempt 0) as [H0|H0].
  - destruct (sleep_cases avg_time st) as [[Hs ->]|[_ [x ->]]].
    2:{ cbn. repeat split. exists []. rewrite app_nil_r. auto. }
    destruct (pow2 attempt) as [x|p] eqn:Hp.
    { cbn. repeat split. eauto 10. }
    apply pow2_inr in Hp. subst p. cbn [drawn].
    fold (jitter attempt (rnd E (drawn st))).
    match goal with
    | |- context [sleep ?d ?s] =>
        destruct (sleep_cases d s) as [[_ ->]|[_ [x ->]]]
    end.
    + cbn. repeat split. eexists. rewrite <- app_assoc.
      split; [reflexivity|]. right. right. auto.
    + cbn. repeat split. eauto 10.
  - destruct (pow2 attempt) as [x|p] eqn:Hp.
    { cbn. repeat split. exists []. rewrite app_nil_r. auto. }
    apply pow2_inr in Hp. subst p. cbn [drawn].
    fold (jitter attempt (rnd E (drawn st))).
    match goal with
    | |- context [sleep ?d ?s] =>
        destruct (sleep_cases d s) as [[_ ->]|[_ [x ->]]]
    end.
    + cbn. repeat split. eexists.
      split; [reflexivity|]. right. right. split; [contradiction|auto].
    + cbn. repeat split. exists []. rewrite app_nil_r. auto.
Qed.

Lemma dispatched_sent r st : sent (dispatched r st) = S (sent st).
Proof. unfold dispatched, api. destruct (_api (self st)); reflexivity. Qed.


Lemma dispatched_url r st : url (self (dispatched r st)) = url (self st).
Proof. unfold dispatched, api. destruct (_api (self st)); reflexivity. Qed.

Lemma dispatched_trace r st :
  trace (dispatched r st) = trace st ++ [Sent (current_session st) r].
Proof. unfold dispatched, api. destruct (_api (self st)); reflexivity. Qed.

Lemma dispatched_session r st :
  current_session (dispatched r st) = current_session st.
Proof.
  unfold dispatched, api, current_session.
  destruct (_api (self st)) eqn:Ha; cbn; rewrite ?Ha; reflexivity.
Qed.

Lemma turn_outcome id retries est st k :
  outcome E (turn E id retries est st) k = outcome E st (S k).
Proof.
  unfold outcome, turn. cbn [waited self sent].
  rewrite dispatched_url, dispatched_sent.
  now rewrite Nat.add_succ_r.
Qed.

Lemma turn_sent id retries est st :
  sent (turn E id retries est st) = S (sent st).
Proof. unfold turn. cbn [waited sent]. apply dispatched_sent. Qed.




(** The four branches of one iteration of the loop. *)
Lemma poll_done budget retries id est st e :
  outcome E st 0 = inr e -> status e = 200 ->
  poll E (S budget) retries id est st =
  (inr e, dispatched (check_request id) st).
Proof.
  intros Ho Hs. cbn [poll]. unfold bind. rewrite check_run, Ho, Hs.
  reflexivity.
Qed.

Lemma poll_pending_step budget retries id est st :
  pending E st 0 ->
  poll E (S budget) retries id est st =
  match _wait E retries est default_cap default_base
              (dispatched (check_request id) st) with
  | (inr _, st2) => poll E budget (retries + 1) id est st2
  | (inl x, st2) => (inl x, st2)
  end.
Proof.
  intros (e & Ho & Hs). cbn [poll]. unfold bind at 1.
  rewrite check_run, Ho, Hs. cbn [Z.eqb Pos.eqb].
  unfold bind. destruct (_wait E _ _ _ _ _) as [[x|b] st2]; reflexivity.
Qed.


Lemma poll_rate_limited budget retries id est st e :
  outcome E st 0 = inr e -> status e = 429 ->
  poll E (S budget) retries id est st =
  (inl (RateLimitExceeded rate_limit_msg),
   dispatched (check_request id) st).
Proof.
  intros Ho Hs. cbn [poll]. unfold bind. rewrite check_run, Ho, Hs.
  reflexivity.
Qed.

Lemma poll_rejected budget retries id est st e :
  outcome E st 0 = inr e ->
  status e <> 200 -> status e <> 202 -> status e <> 429 ->
  poll E (S budget) retries id est st =
  (inl (InlyseApiError (content e)), dispatched (check_request id) st).
Proof.
  intros Ho H200 H202 H429. cbn [poll]. unfold bind. rewrite check_run, Ho.
  destruct (Z.eqb_spec (status e) 200); [contradiction|].
  destruct (Z.eqb_spec (status e) 202); [contradiction|].
  destruct (Z.eqb_spec (status e) 429); [contradiction|].
  reflexivity.
Qed.



Lemma turns_sent k : forall id retries est st,
  sent (turns E k id retries est st) = (sent st + k)%nat.
Proof.
  induction k as [|k IH]; intros; cbn [turns]; [lia|].
  rewrite IH, turn_sent. lia.
Qed.




End Runs.

Lemma poll_raised (E : Env) budget retries id est st x :
  outcome E st 0 = inl x ->
  poll E (S budget) retries id est st =
  (inl x, dispatched (check_request id) st).
Proof.
  intros Ho. cbn [poll]. unfold bind. rewrite check_run, Ho. reflexivity.
Qed.






(** ** The poll loop *)











(** ** The back-off *)




(** ** The submit step *)

Lemma upload_branches (E : Env) up max_retries st response st1 :
  upload_methods E up st = (inr response, st1) ->
  _upload E up max_retries st =
  (if status response =? 429 then raise (RateLimitExceeded rate_limit_msg)
   else if (status response >? 299) || (status response <? 200) then
     raise (InlyseApiError (content response))
   else
     let! t := lift (getitem (content response) "EstimatedAnalysisTime") in
     let! estimated_time := lift (times_float t (2 # 10)) in
     let! id := lift (getitem (content response) "id") in
     get_analysis E id (Some estimated_time) (Some max_retries)) st1.
Proof. intros Hup. unfold _upload, bind at 1. now rewrite Hup. Qed.

Lemma accepted_status (code : Z) :
  200 <= code <= 299 ->
  (code =? 429) = false /\ ((code >? 299) || (code <? 200)) = false.
Proof. intros H. split; [|apply orb_false_iff; split]; lia. Qed.

Lemma float_of_int_run (z : Z) :
  Z.abs z < float_max -> float_of_int z = inr (inject_Z z).
Proof.
  intros H. unfold float_of_int.
  destruct (Z.ltb_spec (Z.abs z) float_max); [reflexivity|lia].
Qed.

Lemma float_of_int_overflow (z : Z) :
  float_max <= Z.abs z -> float_of_int z = inl OverflowError.
Proof.
  intros H. unfold float_of_int.
  destruct (Z.ltb_spec (Z.abs z) float_max); [lia|reflexivity].
Qed.

(** C3, amended.  Whatever response the upload returned: with status 429
    [_upload] raises [RateLimitExceeded]; with any other status outside
    200..299 it raises [InlyseApiError] holding the response content;
    otherwise it takes [EstimatedAnalysisTime] and [id] from the JSON
    body and, when the time is a float or an integer within the range of
    a float, runs [get_analysis] on that id with the estimated time set to
    [EstimatedAnalysisTime * 0.2]; when the time is an integer beyond the
    range of a float, the multiplication raises [OverflowError] and
    [get_analysis] is not run. *)
Theorem upload_submit_step (E : Env) (up : Upload) (max_retries : Z)
    (st st1 : St) (response : InlyseResponse) :
  upload_methods E up st = (inr response, st1) ->
  (status response = 429 ->
     _upload E up max_retries st
       = (inl (RateLimitExceeded rate_limit_msg), st1)) /\
  (status response <> 429 ->
   status response < 200 \/ 299 < status response ->
     _upload E up max_retries st
       = (inl (InlyseApiError (content response)), st1)) /\
  (200 <= status response <= 299 ->
   (forall id t,
      getitem (content response) "id" = inr id ->
      getitem (content response) "EstimatedAnalysisTime" = inr (JNum t) ->
      _upload E up max_retries st
        = get_analysis E id (Some (t * (2 # 10))%Q) (Some max_retries) st1) /\
   (forall id z,
      getitem (content response) "id" = inr id ->
      getitem (content response) "EstimatedAnalysisTime" = inr (JInt z) ->
      Z.abs z < float_max ->
      _upload E up max_retries st
        = get_analysis E id (Some (inject_Z z * (2 # 10))%Q)
                       (Some max_retries) st1) /\
   (forall z,
      getitem (content response) "EstimatedAnalysisTime" = inr (JInt z) ->
      float_max <= Z.abs z ->
      _upload E up max_retries st = (inl OverflowError, st1))).
Proof.
  intros Hup. rewrite (upload_branches E _ _ _ _ _ Hup).
  split; [|split].
  - intros ->. reflexivity.
  - intros H429 Hout.
    destruct (Z.eqb_spec (status response) 429); [contradiction|].
    replace ((status response >? 299) || (status response <? 200))
      with true; [reflexivity|].
    symmetry. apply orb_true_iff. destruct Hout; [right|left]; lia.
  - intros Hin. destruct (accepted_status _ Hin) as [-> ->].
    unfold bind, lift. split; [|split].
    + intros id t Hid Ht. rewrite Ht. cbn [times_float]. rewrite Hid.
      reflexivity.
    + intros id z Hid Ht Hz. rewrite Ht. cbn [times_float rbind].
      rewrite (float_of_int_run z Hz), Hid. reflexivity.
    + intros z Ht Hz. rewrite Ht. cbn [times_float rbind].
      rewrite (float_of_int_overflow z Hz). reflexivity.
Qed.

(** C3 as stated fails: an upload accepted with a body that holds [id]
    and the integer 10^400 as [EstimatedAnalysisTime] ends in
    [OverflowError], raised by the multiplication with 0.2; the upload is
    the only request made and the poll loop is not entered. *)
Lemma upload_time_overflow :
  let body :=
    JObj [("id", JStr "X"); ("EstimatedAnalysisTime", JInt (10 ^ 400))] in
  let run :=
    _upload (accepted "huge") (url_ "https://inlyse.test/a.pdf") 15 start in
  upload_methods (accepted "huge") (url_ "https://inlyse.test/a.pdf") start
    = (inr (receipt 200 body), snd run) /\
  getitem (CJson body) "id" = inr (JStr "X") /\
  getitem (CJson body) "EstimatedAnalysisTime" = inr (JInt (10 ^ 400)) /\
  fst run = inl OverflowError /\
  requests (trace (snd run)) = 1%nat.
Proof. vm_compute. repeat split. Qed.

Lemma upload_submit_step_witness :
  _upload (accepted "upload") (url_ "https://inlyse.test/a.pdf") 15 start
  = get_analysis (accepted "upload") (JStr "X") (Some ((5 # 1) * (2 # 10))%Q)
                 (Some 15)
                 (snd (upload_methods (accepted "upload")
                                      (url_ "https://inlyse.test/a.pdf")
                                      start)).
Proof.
  assert (Hup : upload_methods (accepted "upload")
                  (url_ "https://inlyse.test/a.pdf") start
                = (inr (receipt 200 upload_doc),
                   snd (upload_methods (accepted "upload")
                          (url_ "https://inlyse.test/a.pdf") start)))
    by reflexivity.
  assert (Hin : 200 <= status (receipt 200 upload_doc) <= 299)
    by (cbn; lia).
  exact (proj1 (proj2 (proj2 (upload_submit_step (accepted "upload") _ 15
                                _ _ _ Hup)) Hin)
               (JStr "X") (5 # 1) eq_refl eq_refl).
Defined.

(** C10, amended.  Let the upload be answered with a status in 200..299
    and a JSON object.  If the object has no [EstimatedAnalysisTime],
    [_upload] fails with [KeyError]; so it does if the object has an
    [EstimatedAnalysisTime] that can be multiplied by 0.2 (a float, a
    boolean or an integer within the range of a float) and no [id].
    Whenever one of the two keys is missing, [_upload] fails before any
    check call with a built-in exception ([KeyError], [TypeError] or
    [OverflowError]), never with one of the documented kinds. *)
Theorem upload_missing_key (E : Env) (up : Upload) (max_retries : Z)
    (st st1 : St) (response : InlyseResponse)
    (items : list (string * JSON)) :
  upload_methods E up st = (inr response, st1) ->
  200 <= status response <= 299 ->
  content response = CJson (JObj items) ->
  (dict_get items "EstimatedAnalysisTime" = None ->
     _upload E up max_retries st
       = (inl (KeyError "EstimatedAnalysisTime"), st1)) /\
  (forall t q,
     dict_get items "EstimatedAnalysisTime" = Some t ->
     times_float t (2 # 10) = inr q ->
     dict_get items "id" = None ->
     _upload E up max_retries st = (inl (KeyError "id"), st1)) /\
  (dict_get items "EstimatedAnalysisTime" = None \/
   dict_get items "id" = None ->
     exists x,
       _upload E up max_retries st = (inl x, st1) /\ undocumented x).
Proof.
  intros Hup Hin Hc. rewrite (upload_branches E _ _ _ _ _ Hup).
  destruct (accepted_status _ Hin) as [-> ->]. rewrite Hc.
  unfold bind, lift, getitem.
  split; [|split].
  - intros ->. reflexivity.
  - intros t q Ht Hq Hid. rewrite Ht. cbn [orraise]. rewrite Hq, Hid.
    reflexivity.
  - intros Hmiss.
    destruct (dict_get items "EstimatedAnalysisTime") as [t|];
      [|eexists; split; [reflexivity|exact I]].
    destruct Hmiss as [Hmiss|Hmiss]; [discriminate|].
    destruct t as [|b|z|q|s|l|items']; cbn [orraise times_float rbind];
      try (unfold float_of_int; destruct (Z.abs z <? float_max));
      rewrite ?Hmiss; eexists; (split; [reflexivity|exact I]).
Qed.

(** C10 as stated fails: an accepted upload whose body has no [id] and a
    textual [EstimatedAnalysisTime] ends in [TypeError], raised by the
    multiplication, not in [KeyError]. *)
Lemma missing_id_type_error :
  let run :=
    _upload (accepted "no-id") (url_ "https://inlyse.test/a.pdf") 15 start in
  upload_methods (accepted "no-id") (url_ "https://inlyse.test/a.pdf") start
    = (inr (receipt 200 (JObj [("EstimatedAnalysisTime", JStr "soon")])),
       snd run) /\
  dict_get [("EstimatedAnalysisTime", JStr "soon")] "id" = None /\
  fst run = inl TypeError /\
  (forall key, fst run <> inl (KeyError key)).
Proof. repeat split. intros key. discriminate. Qed.

Lemma upload_missing_key_witness :
  _upload (accepted "no-time") (url_ "https://inlyse.test/a.pdf") 15 start
  = (inl (KeyError "EstimatedAnalysisTime"),
     snd (upload_methods (accepted "no-time")
                         (url_ "https://inlyse.test/a.pdf") start)).
Proof.
  assert (Hup : upload_methods (accepted "no-time")
                  (url_ "https://inlyse.test/a.pdf") start
                = (inr (receipt 200 (JObj [("id", JStr "X")])),
                   snd (upload_methods (accepted "no-time")
                          (url_ "https://inlyse.test/a.pdf") start)))
    by reflexivity.
  assert (Hin : 200 <= status (receipt 200 (JObj [("id", JStr "X")])) <= 299)
    by (cbn; lia).
  exact (proj1 (upload_missing_key (accepted "no-time") _ 15 _ _ _
                  [("id", JStr "X")] Hup Hin eq_refl) eq_refl).
Defined.

(** ** The response envelope *)

(** The decorator returns what [envelope] makes of the response of the
    decorated function. *)
Lemma endpoint_returns (E : Env) path func st response st1 e st' :
  func path st = (inr response, st1) ->
  endpoint E path func st = (inr e, st') ->
  envelope E (url (self st1)) path response = inr e /\ st' = st1.
Proof.
  intros Hf. unfold endpoint, bind, get_self, lift. rewrite Hf.
  intros H. now injection H as -> ->.
Qed.

(** C5. In the envelope the decorator returns for a response carrying
    [x-ratelimit-remaining], [rate_limit] is present, its [remaining] is
    that header read by [int] and its [reset] is the [x-ratelimit-reset]
    header read by [strptime] with format [%d-%m-%Y %H:%M:%S] and given
    the UTC time zone; for a response without the header, [rate_limit]
    is [None]. *)
Theorem endpoint_rate_limit (E : Env) (path : string)
    (func : string -> M HttpResponse) (st st1 st' : St)
    (response : HttpResponse) (e : InlyseResponse) :
  func path st = (inr response, st1) ->
  endpoint E path func st = (inr e, st') ->
  match headers response !! "x-ratelimit-remaining" with
  | Some r =>
      exists n t d q,
        py_int E r = Some n /\
        headers response !! "x-ratelimit-reset" = Some t /\
        strptime E t "%d-%m-%Y %H:%M:%S" = Some d /\
        rate_limit e = Some q /\
        remaining q = n /\
        reset q = replace_tzinfo d utc /\
        tz (reset q) = Some utc
  | None => rate_limit e = None
  end.
Proof.
  intros Hf He. destruct (endpoint_returns E _ _ _ _ _ _ _ Hf He) as [H _].
  clear Hf He. unfold envelope, quota_of, header in H.
  destruct (headers response !! "x-ratelimit-remaining") as [r|] eqn:Hr.
  - cbn [rbind orraise] in H. repeat case_raise H. unfold content_of in H.
    exists x1, x2, x3, (mkQuota x0 x1 (replace_tzinfo x3 utc)).
    assert (rate_limit e = Some (mkQuota x0 x1 (replace_tzinfo x3 utc))).
    { destruct (decide _); [case_raise H|]; now injection H as <-. }
    auto 10.
  - cbn [rbind orraise] in H. case_raise H. unfold content_of in H.
    destruct (decide _); [case_raise H|]; now injection H as <-.
Qed.

Lemma endpoint_rate_limit_witness :
  exists e st' q,
    stats (env [metered]) start = (inr e, st') /\
    rate_limit e = Some q /\
    remaining q = 99 /\
    reset q = mkDatetime 2023 3 20 22 16 47 (Some utc).
Proof.
  set (func := fun path => api_get (env [metered]) (Plain path) []).
  set (e := mkInlyseResponse "http://inlyse.test/api/stats" 200
              (Some (mkQuota 100 99
                             (mkDatetime 2023 3 20 22 16 47 (Some utc))))
              ("application/json", ∅) (CJson result_doc)).
  assert (Hf : func "/api/stats" start
               = (inr metered, snd (func "/api/stats" start)))
    by reflexivity.
  assert (He : endpoint (env [metered]) "/api/stats" func start
               = (inr e, snd (func "/api/stats" start)))
    by reflexivity.
  pose proof (endpoint_rate_limit (env [metered]) "/api/stats" func _ _ _
                metered e Hf He) as H.
  change (headers metered !! "x-ratelimit-remaining") with (Some "99") in H.
  destruct H as (n & t & d & q & Hn & _ & _ & Hq & Hrem & _).
  exists e, (snd (func "/api/stats" start)), q.
  split; [exact He|]. split; [exact Hq|].
  split; [|now injection Hq as <-].
  rewrite Hrem. now injection Hn as <-.
Defined.

(** C6. In the envelope the decorator returns, [content] is the decoded
    JSON body when the mime type of the parsed content type is
    [application/json], and the raw body for every other mime type. *)
Theorem endpoint_content (E : Env) (path : string)
    (func : string -> M HttpResponse) (st st1 st' : St)
    (response : HttpResponse) (e : InlyseResponse) :
  func path st = (inr response, st1) ->
  endpoint E path func st = (inr e, st') ->
  exists ct,
    headers response !! "content-type" = Some ct /\
    content_type e = _parse_content_type_header E ct /\
    (fst (content_type e) = "application/json" ->
       exists j,
         json_loads E (body response) = Some j /\ content e = CJson j) /\
    (fst (content_type e) <> "application/json" ->
       content e = CBytes (body response)).
Proof.
  intros Hf He. destruct (endpoint_returns E _ _ _ _ _ _ _ Hf He) as [H _].
  clear Hf He. unfold envelope, header in H.
  destruct (quota_of E response) as [x|quota]; [discriminate H|].
  cbn [rbind] in H. case_raise H. exists x. split; [reflexivity|].
  unfold content_of in H.
  destruct (decide _) as [Hm|Hm].
  - case_raise H. injection H as <-. cbn [content_type content].
    split; [reflexivity|]. split; [eauto|]. intros Hne. contradiction.
  - injection H as <-. cbn [content_type content].
    split; [reflexivity|]. split; [|reflexivity]. intros Heq. contradiction.
Qed.

(** The decorator does return whenever the response has no rate-limit
    header, has a content-type header and, if that names JSON, a body that
    decodes. *)
Lemma envelope_plain (E : Env) base path response ct :
  headers response !! "x-ratelimit-remaining" = None ->
  headers response !! "content-type" = Some ct ->
  (fst (_parse_content_type_header E ct) = "application/json" ->
     is_Some (json_loads E (body response))) ->
  exists c,
    envelope E base path response =
    inr (mkInlyseResponse (urljoin E base path) (status_code response) None
                          (_parse_content_type_header E ct) c).
Proof.
  intros Hr Hct Hj. unfold envelope, quota_of, header, content_of.
  rewrite Hr, Hct. cbn [orraise rbind].
  destruct (decide _) as [Hm|Hm]; [|eauto].
  destruct (Hj Hm) as [j ->]. cbn [orraise rbind]. eauto.
Qed.

Lemma endpoint_content_witness :
  (exists e st',
     stats (env [metered]) start = (inr e, st') /\
     content e = CJson result_doc) /\
  (exists e st',
     download (env [pdf]) (JStr "X") start = (inr e, st') /\
     content e = CBytes (bytes "%PDF-1.7")).
Proof.
  split.
  - set (func := fun path => api_get (env [metered]) (Plain path) []).
    set (e := mkInlyseResponse "http://inlyse.test/api/stats" 200
                (Some (mkQuota 100 99
                               (mkDatetime 2023 3 20 22 16 47 (Some utc))))
                ("application/json", ∅) (CJson result_doc)).
    assert (Hf : func "/api/stats" start
                 = (inr metered, snd (func "/api/stats" start)))
      by reflexivity.
    assert (He : endpoint (env [metered]) "/api/stats" func start
                 = (inr e, snd (func "/api/stats" start)))
      by reflexivity.
    destruct (endpoint_content (env [metered]) "/api/stats" func _ _ _
                metered e Hf He) as (ct & _ & _ & Hjson & _).
    exists e, (snd (func "/api/stats" start)). split; [exact He|].
    destruct (Hjson eq_refl) as (j & Hj & Hc).
    rewrite Hc. now injection Hj as <-.
  - set (func := fun path =>
                   api_get (env [pdf]) (Format path (JStr "X")) []).
    set (e := mkInlyseResponse
                "http://inlyse.test/api/analysis/{id}/download" 200 None
                ("application/pdf", ∅) (CBytes (bytes "%PDF-1.7"))).
    assert (Hf : func "/api/analysis/{id}/download" start
                 = (inr pdf, snd (func "/api/analysis/{id}/download" start)))
      by reflexivity.
    assert (He : endpoint (env [pdf]) "/api/analysis/{id}/download" func
                          start
                 = (inr e, snd (func "/api/analysis/{id}/download" start)))
      by reflexivity.
    destruct (endpoint_content (env [pdf]) "/api/analysis/{id}/download"
                func _ _ _ pdf e Hf He) as (ct & _ & _ & _ & Hraw).
    exists e, (snd (func "/api/analysis/{id}/download" start)).
    split; [exact He|]. apply Hraw. cbn. discriminate.
Defined.

(** ** The session *)

Lemma wf_close st : wf st -> wf (snd (close st)).
Proof.
  intros [Hs Hc]. unfold close, set_api, wf.
  destruct (_api (self st)) as [s|] eqn:Ha; cbn; split; try easy.
  constructor; auto.
Qed.

Lemma wf_api st : wf st -> wf (snd (api st)).
Proof.
  intros Hwf. unfold api.
  destruct (_api (self st)) as [s|] eqn:Ha; [exact Hwf|].
  destruct Hwf as [_ Hc]. split; cbn.
  - intros s' Hs'. injection Hs' as <-. cbn. lia.
  - eapply Forall_impl; [exact Hc|]. cbn. lia.
Qed.

(** C8. [close()] closes the session the client holds and leaves [_api]
    unset.  A request made afterwards, by [get] or by [post], goes through:
    the [api] property creates a session that was never used or closed
    before, bound to the client's base URL, carrying its bearer token and
    mounting on both schemes an adapter with the client's timeout and the
    retry policy for GET on 429 and 503; the request is sent on that
    session, the service's answer is returned, and the client keeps the
    new session.  It is configured like the session [api] had created for
    this client before. *)
Theorem close_then_request_reopens (E : Env) (st : St) (path : UrlPath)
    (params : list (string * string)) (payload : Payload) :
  wf st ->
  let st1 := snd (close st) in
  let fresh := new_session (next_sid st) (self st) in
  let adapter := mkAdapter (timeout (self st)) retry_strategy in
  let reopened r st2 :=
    _api (self st2) = Some fresh /\
    trace st2 = trace st ++ [Sent (sid fresh) r] /\
    closed st2 = closed st1 in
  fst (close st) = inr tt /\
  _api (self st1) = None /\
  (forall s, _api (self st) = Some s -> closed st1 = sid s :: closed st) /\
  api st1 = (inr fresh, snd (api st1)) /\
  fst (api_get E path params st1) = inr (net E (sent st)) /\
  reopened (mkRequest GET path params NoPayload)
           (snd (api_get E path params st1)) /\
  fst (api_post E path payload st1) = inr (net E (sent st)) /\
  reopened (mkRequest POST path [] payload)
           (snd (api_post E path payload st1)) /\
  (sid fresh ∉ closed st1) /\
  base_url fresh = url (self st) /\
  session_headers fresh !! "Authorization"
    = Some ("Bearer " +:+ license_key (self st)) /\
  mounts fresh !! "http://" = Some adapter /\
  mounts fresh !! "https://" = Some adapter /\
  allowed_methods (max_retries adapter) = ["GET"] /\
  status_forcelist (max_retries adapter) = [429; 503] /\
  (forall i, _api (self st) = Some (new_session i (self st)) ->
     base_url fresh = base_url (new_session i (self st)) /\
     session_headers fresh = session_headers (new_session i (self st)) /\
     mounts fresh = mounts (new_session i (self st))).
Proof.
  intros Hwf st1 fresh adapter reopened.
  assert (Hclosed : sid fresh ∉ closed st1).
  { pose proof (wf_close st Hwf) as [_ Hc]. fold st1 in Hc.
    intros Hin. rewrite Forall_forall in Hc. apply Hc in Hin.
    subst st1. unfold close, set_api in Hin.
    destruct (_api (self st)); cbn in Hin; lia. }
  subst st1 fresh adapter reopened.
  unfold close, set_api, api_get, api_post, bind, api, request in *.
  destruct (_api (self st)) as [s|] eqn:Ha; cbn [fst snd self _api trace
    sent closed next_sid url license_key timeout new_session sid base_url
    session_headers mounts max_retries allowed_methods status_forcelist
    retry_strategy new_adapter] in *.
  all: repeat split; try reflexivity; try assumption.
  all: try (intros ? [= <-]; reflexivity).
  all: try discriminate.
Qed.

Lemma close_then_request_reopens_witness :
  _api (self (snd (close opened))) = None /\
  closed (snd (close opened)) = [0%nat] /\
  fst (api_get never_done (Plain "/ping") [] (snd (close opened)))
    = inr still_pending /\
  sid <$> _api (self (snd (api_get never_done (Plain "/ping") []
                                   (snd (close opened))))) = Some 1%nat.
Proof.
  assert (Hwf : wf opened).
  { split; [|constructor]. intros s Hs. injection Hs as <-. cbn. lia. }
  pose proof (close_then_request_reopens never_done opened (Plain "/ping")
                [] NoPayload Hwf) as H.
  cbn zeta in H.
  destruct H as (_ & Hnone & Hcl & _ & Hget & (Hnew & _) & _).
  split; [exact Hnone|]. split; [exact (Hcl _ eq_refl)|].
  split; [exact Hget|]. rewrite Hnew. reflexivity.
Defined.

(** ** The list filter *)

(** C9. [list_analyses] sends a filter among all, finished, unfinished and
    error unchanged as the [filter] query parameter; for any other value
    it logs a warning and sends [filter=all]. *)
Theorem list_analyses_filter (E : Env) (filter_ : string) (st : St) :
  let known := bool_decide (filter_ ∈ ["all"; "finished"; "unfinished"; "error"]) in
  let query := [("filter", if known then filter_ else "all")] in
  let logged :=
    if known then [] else [Warned "Unknown filter %s." filter_] in
  let run := list_analyses E (Some filter_) st in
  fst run = envelope E (url (self st)) "/api/analysis" (net E (sent st)) /\
  trace (snd run) =
    trace st ++ logged ++
    [Sent (current_session st)
          (mkRequest GET (Plain "/api/analysis") query NoPayload)].
Proof.
  cbn zeta. unfold list_analyses, valid_filters, bool_decide. cbn zeta.
  change (default "all" (Some filter_)) with filter_.
  destruct (decide_rel elem_of filter_ _) as [Hin|Hin].
  - change (endpoint E "/api/analysis" _ st)
      with (endpoint E "/api/analysis"
              (fun p => api_get E (Plain p) [("filter", filter_)]) st).
    rewrite endpoint_get_run. cbn [fst snd].
    rewrite dispatched_trace. auto.
  - set (st0 := mkSt (self st)
                     (trace st ++ [Warned "Unknown filter %s." filter_])
                     (sent st) (drawn st) (next_sid st) (closed st)).
    change (endpoint E "/api/analysis" _ st)
      with (endpoint E "/api/analysis"
              (fun p => api_get E (Plain p) [("filter", "all")]) st0).
    rewrite endpoint_get_run. cbn [fst snd].
    rewrite dispatched_trace. subst st0. cbn [self sent trace].
    rewrite <- app_assoc. auto.
Qed.



(** ** More on the poll loop *)

Lemma pending_turn (E : Env) id retries est st j :
  pending E (turn E id retries est st) j <-> pending E st (S j).
Proof. unfold pending. now rewrite turn_outcome. Qed.

Lemma pow2_returns attempt p : pow2 attempt = inr p -> attempt < 1024.
Proof.
  intros Hp. destruct (Z_lt_le_dec attempt 1024) as [Hlt|Hge]; [exact Hlt|].
  rewrite (pow2_overflow attempt Hge) in Hp. discriminate Hp.
Qed.

(** When [_wait] returns, nothing in it raised: the attempt is below
    1024, the estimated time of attempt 0 was accepted by [time.sleep],
    and all the sleeps of the attempt are in the log. *)
Lemma wait_returns (E : Env) attempt avg_time st b st' :
  _wait E attempt avg_time default_cap default_base st = (inr b, st') ->
  attempt < 1024 /\ (attempt = 0 -> sleepable avg_time) /\
  st' = waited E attempt avg_time st.
Proof.
  unfold _wait, waited, wait_events, uniform, random, bind, ret, lift.
  destruct (Z.eqb_spec attempt 0) as [H0|H0].
  - destruct (sleep_cases avg_time st) as [[Hs ->]|[_ [x ->]]];
      [|discriminate].
    destruct (pow2 attempt) as [x|p] eqn:Hp; [discriminate|].
    apply pow2_inr in Hp. subst p. cbn [drawn].
    fold (jitter attempt (rnd E (drawn st))).
    match goal with
    | |- context [sleep ?d ?s] =>
        destruct (sleep_cases d s) as [[_ ->]|[_ [x ->]]]
    end; [|discriminate].
    cbn. intros [= _ <-]. rewrite <- app_assoc.
    split; [lia|split; [auto|reflexivity]].
  - destruct (pow2 attempt) as [x|p] eqn:Hp; [discriminate|].
    pose proof (pow2_returns attempt p Hp) as Ha.
    apply pow2_inr in Hp. subst p. cbn [drawn].
    fold (jitter attempt (rnd E (drawn st))).
    match goal with
    | |- context [sleep ?d ?s] =>
        destruct (sleep_cases d s) as [[_ ->]|[_ [x ->]]]
    end; [|discriminate].
    cbn. intros [= _ <-].
    split; [exact Ha|split; [contradiction|reflexivity]].
Qed.

Lemma poll_returns (E : Env) budget : forall retries id est st e st',
  poll E budget retries id est st = (inr e, st') ->
  exists k,
    (k < budget)%nat /\
    (k <> 0%nat -> retries + Z.of_nat k <= 1024) /\
    (k <> 0%nat -> retries = 0 -> sleepable est) /\
    (forall j, (j < k)%nat -> pending E st j) /\
    outcome E st k = inr e /\ status e = 200 /\
    st' = dispatched (check_request id) (turns E k id retries est st).
Proof.
  induction budget as [|budget IH]; intros retries id est st e st' Hrun.
  - discriminate Hrun.
  - destruct (outcome E st 0) as [x|e0] eqn:Ho.
    { rewrite (poll_raised E _ _ _ _ _ x Ho) in Hrun. discriminate Hrun. }
    destruct (Z.eq_dec (status e0) 200) as [H200|H200].
    { rewrite (poll_done E _ _ _ _ _ e0 Ho H200) in Hrun.
      injection Hrun as <- <-. exists 0%nat.
      repeat split; auto; try congruence; [lia|intros j Hj; lia]. }
    destruct (Z.eq_dec (status e0) 202) as [H202|H202].
    { assert (Hp : pending E st 0) by (exists e0; auto).
      rewrite poll_pending_step in Hrun by exact Hp.
      destruct (_wait E _ _ _ _ _) as [[x|b] st2] eqn:Hw;
        [discriminate Hrun|].
      destruct (wait_returns E _ _ _ _ _ Hw) as (Ha & Havg & ->).
      fold (turn E id retries est st) in Hrun.
      destruct (IH _ _ _ _ _ _ Hrun)
        as (k & Hk & Hb & _ & Hpre & Hok & Hs & Hst).
      exists (S k). rewrite turn_outcome in Hok.
      split; [lia|]. split; [intros _; destruct k; lia|].
      split; [intros _; exact Havg|].
      repeat split; auto.
      intros [|j] Hj; [exact Hp|].
      apply (proj1 (pending_turn E id retries est st j)). apply Hpre. lia. }
    destruct (Z.eq_dec (status e0) 429) as [H429|H429].
    { rewrite (poll_rate_limited E _ _ _ _ _ e0 Ho H429) in Hrun.
      discriminate Hrun. }
    rewrite (poll_rejected E _ _ _ _ _ e0 Ho H200 H202 H429) in Hrun.
    discriminate Hrun.
Qed.





Lemma dispatched_next_sid r st :
  (next_sid st <= next_sid (dispatched r st) <= S (next_sid st))%nat /\
  (is_Some (_api (self st)) -> next_sid (dispatched r st) = next_sid st).
Proof.
  unfold dispatched, api.
  destruct (_api (self st)) as [s|]; cbn; split; try lia; auto.
  intros [? [=]].
Qed.

Lemma dispatched_holds r st : is_Some (_api (self (dispatched r st))).
Proof.
  unfold dispatched, api.
  destruct (_api (self st)) eqn:Ha; cbn; rewrite ?Ha; eauto.
Qed.

Lemma wait_events_poll s id attempt avg_time u :
  Forall (poll_event s id) (wait_events attempt avg_time u).
Proof.
  unfold wait_events. destruct (attempt =? 0); repeat constructor.
Qed.

Lemma wait_events_requests attempt avg_time u :
  requests (wait_events attempt avg_time u) = 0%nat.
Proof. unfold wait_events. destruct (attempt =? 0); reflexivity. Qed.

(** What [_wait] adds to the log, whether it returns or raises: sleeps
    only. *)
Lemma wait_log (E : Env) attempt avg_time st :
  let st' := snd (_wait E attempt avg_time default_cap default_base st) in
  self st' = self st /\ next_sid st' = next_sid st /\
  exists tr,
    trace st' = trace st ++ tr /\ requests tr = 0%nat /\
    forall s id, Forall (poll_event s id) tr.
Proof.
  destruct (wait_effect E attempt avg_time st)
    as (Hself & _ & Hsid & _ & tr & Htr & Hcases).
  cbn zeta. split; [exact Hself|]. split; [exact Hsid|].
  exists tr. split; [exact Htr|].
  destruct Hcases as [->|[(_ & _ & ->)|(_ & ->)]].
  - split; [reflexivity|constructor].
  - split; [reflexivity|repeat constructor].
  - split; [apply wait_events_requests|intros; apply wait_events_poll].
Qed.

(** What every run of the loop logs: only sleeps and checks of [id] on the
    session in use, at most [budget] checks, and at most one new session. *)
Lemma poll_log (E : Env) budget : forall retries id est st,
  let st' := snd (poll E budget retries id est st) in
  (exists tr,
     trace st' = trace st ++ tr /\
     Forall (poll_event (current_session st) id) tr /\
     (requests tr <= budget)%nat) /\
  (next_sid st <= next_sid st' <= S (next_sid st))%nat /\
  (is_Some (_api (self st)) -> next_sid st' = next_sid st).
Proof.
  induction budget as [|budget IH]; intros retries id est st; cbn zeta.
  - cbn. split; [|split; [lia|auto]].
    exists []. rewrite app_nil_r. repeat split; auto.
  - assert (Hone :
      let st1 := dispatched (check_request id) st in
      (exists tr,
         trace st1 = trace st ++ tr /\
         Forall (poll_event (current_session st) id) tr /\
         (requests tr <= S budget)%nat) /\
      (next_sid st <= next_sid st1 <= S (next_sid st))%nat /\
      (is_Some (_api (self st)) -> next_sid st1 = next_sid st)).
    { cbn zeta. split; [|apply dispatched_next_sid].
      exists [Sent (current_session st) (check_request id)].
      rewrite dispatched_trace. repeat split; auto.
      - repeat constructor.
      - cbn. lia. }
    destruct (outcome E st 0) as [x|e] eqn:Ho.
    { rewrite (poll_raised E _ _ _ _ _ x Ho). exact Hone. }
    destruct (Z.eq_dec (status e) 200) as [H200|H200].
    { rewrite (poll_done E _ _ _ _ _ e Ho H200). exact Hone. }
    destruct (Z.eq_dec (status e) 202) as [H202|H202].
    { rewrite poll_pending_step by (exists e; auto).
      destruct (wait_log E retries est (dispatched (check_request id) st))
        as (Hself & Hsid2 & wtr & Hwtr & Hwreq & Hwev).
      destruct (_wait E _ _ _ _ _) as [[x|b] st2]; cbn [snd] in *.
      - rewrite Hsid2. split; [|apply dispatched_next_sid].
        exists (Sent (current_session st) (check_request id) :: wtr).
        rewrite Hwtr, dispatched_trace, <- app_assoc.
        split; [reflexivity|]. split.
        + constructor; [split; reflexivity|apply Hwev].
        + change (Sent ?s ?r :: ?l) with ([Sent s r] ++ l).
          rewrite requests_app, Hwreq. cbn. lia.
      - destruct (IH (retries + 1) id est st2)
          as ((tr & Htr & Hev & Hreq) & Hsid & Hheld).
        assert (Hcur : current_session st2 = current_session st).
        { unfold current_session. rewrite Hself, Hsid2.
          apply dispatched_session. }
        rewrite Hcur in Hev.
        assert (His : is_Some (_api (self st2)))
          by (rewrite Hself; apply dispatched_holds).
        specialize (Hheld His). rewrite Hheld, Hsid2.
        split; [|apply dispatched_next_sid].
        exists (Sent (current_session st) (check_request id)
                  :: wtr ++ tr).
        rewrite Htr, Hwtr, dispatched_trace, <- !app_assoc.
        split; [reflexivity|]. split.
        + constructor; [split; reflexivity|].
          apply Forall_app. split; [apply Hwev|exact Hev].
        + change (Sent ?s ?r :: ?l) with ([Sent s r] ++ l).
          rewrite !requests_app, Hwreq. cbn. lia. }
    destruct (Z.eq_dec (status e) 429) as [H429|H429].
    { rewrite (poll_rate_limited E _ _ _ _ _ e Ho H429). exact Hone. }
    rewrite (poll_rejected E _ _ _ _ _ e Ho H200 H202 H429). exact Hone.
Qed.

(** X3. Whatever the service answers and whatever [_wait] does, a run of
    [get_analysis] adds to the log only sleeps and check calls of the
    given analysis, all made on one session; it makes at most
    [max_retries] calls of the session (what the transport re-sends below
    a call is not counted), creates at most one session and none when the
    client holds one; with [max_retries <= 0] it raises
    [MaxRetriesExceeded] without a single call. *)
Theorem get_analysis_log (E : Env) (st : St) (id : JSON)
    (estimated_time : option Q) (max_retries : Z) :
  let run := get_analysis E id estimated_time (Some max_retries) st in
  (exists tr,
     trace (snd run) = trace st ++ tr /\
     Forall (poll_event (current_session st) id) tr /\
     Z.of_nat (requests tr) <= Z.max 0 max_retries) /\
  (next_sid st <= next_sid (snd run) <= S (next_sid st))%nat /\
  (is_Some (_api (self st)) -> next_sid (snd run) = next_sid st) /\
  (max_retries <= 0 ->
     run = (inl (MaxRetriesExceeded max_retries_msg), st)).
Proof.
  cbn zeta.
  change (get_analysis E id estimated_time (Some max_retries))
    with (poll E (Z.to_nat max_retries) 0 id
               (default default_estimated_time estimated_time)).
  destruct (poll_log E (Z.to_nat max_retries) 0 id
              (default default_estimated_time estimated_time) st)
    as ((tr & Htr & Hev & Hreq) & Hsid & Hheld).
  split; [|split; [exact Hsid|split; [exact Hheld|]]].
  - exists tr. repeat split; auto. lia.
  - intros Hmr. replace (Z.to_nat max_retries) with 0%nat by lia.
    reflexivity.
Qed.





(** ** The time a poll may sleep *)

Lemma slept_cons ev tr :
  slept (ev :: tr) =
  match ev with
  | Slept d => (d + slept tr)%Q
  | _ => slept tr
  end.
Proof. reflexivity. Qed.

Lemma slept_app tr1 tr2 : (slept (tr1 ++ tr2) == slept tr1 + slept tr2)%Q.
Proof.
  induction tr1 as [|ev tr1 IH]; cbn [app].
  - change (slept []) with (0 # 1). lra.
  - rewrite !slept_cons. destruct ev; lra.
Qed.

Lemma backoff_cap_nonneg attempt : (0 <= backoff_cap attempt)%Q.
Proof.
  unfold backoff_cap, default_cap, default_base.
  apply Q.min_glb; [easy|].
  apply Qmult_le_0_compat; [easy|]. now apply Qpower_0_le.
Qed.

Lemma backoff_budget_nonneg k : forall attempt,
  (0 <= backoff_budget k attempt)%Q.
Proof.
  induction k as [|k IH]; intros attempt; cbn [backoff_budget]; [lra|].
  pose proof (backoff_cap_nonneg attempt). pose proof (IH (attempt + 1)).
  lra.
Qed.

Lemma wait_events_slept attempt avg_time u :
  (0 <= u)%Q -> (u <= 1)%Q ->
  (slept (wait_events attempt avg_time u)
   <= (if attempt =? 0 then avg_time else 0) + backoff_cap attempt)%Q.
Proof.
  intros Hu0 Hu1.
  destruct (jitter_bounds attempt u Hu0 Hu1) as [_ Hhi].
  change (Qmin (40 # 1) ((1 # 10) * (2 # 1) ^ attempt))
    with (backoff_cap attempt) in Hhi.
  unfold wait_events. destruct (attempt =? 0); cbn [app];
    rewrite !slept_cons; change (slept []) with (0 # 1); lra.
Qed.

(** What one call of [_wait] sleeps at most, whether it returns or
    raises. *)
Lemma wait_slept (E : Env) attempt avg_time st :
  (0 <= rnd E (drawn st))%Q -> (rnd E (drawn st) <= 1)%Q ->
  (0 <= avg_time)%Q ->
  (slept (trace (snd (_wait E attempt avg_time default_cap default_base st)))
   <= slept (trace st) + (if attempt =? 0 then avg_time else 0)
      + backoff_cap attempt)%Q.
Proof.
  intros Hu0 Hu1 Havg.
  destruct (wait_effect E attempt avg_time st)
    as (_ & _ & _ & _ & tr & Htr & Hcases).
  cbn zeta in Htr. rewrite Htr, slept_app.
  pose proof (backoff_cap_nonneg attempt) as Hcap.
  destruct Hcases as [->|[(-> & _ & ->)|(_ & ->)]].
  - change (slept []) with (0 # 1). destruct (attempt =? 0); lra.
  - rewrite slept_cons. change (slept []) with (0 # 1).
    change (0 =? 0) with true. cbv iota. lra.
  - pose proof (wait_events_slept attempt avg_time _ Hu0 Hu1). lra.
Qed.

Lemma poll_slept (E : Env) budget : forall retries id est st,
  unit_draws E ->
  (0 <= est)%Q -> 0 <= retries ->
  (slept (trace (snd (poll E budget retries id est st)))
   <= slept (trace st) + (if retries =? 0 then est else 0)
      + backoff_budget budget retries)%Q.
Proof.
  induction budget as [|budget IH]; intros retries id est st Hrnd Hest Hr.
  - cbn. destruct (retries =? 0); lra.
  - assert (Hone :
      (slept (trace (dispatched (check_request id) st))
       <= slept (trace st) + (if retries =? 0 then est else 0)
          + backoff_budget (S budget) retries)%Q).
    { rewrite dispatched_trace, slept_app, slept_cons.
      change (slept []) with (0 # 1).
      pose proof (backoff_budget_nonneg (S budget) retries).
      destruct (retries =? 0); lra. }
    destruct (outcome E st 0) as [x|e] eqn:Ho.
    { rewrite (poll_raised E _ _ _ _ _ x Ho). exact Hone. }
    destruct (Z.eq_dec (status e) 200) as [H200|H200].
    { rewrite (poll_done E _ _ _ _ _ e Ho H200). exact Hone. }
    destruct (Z.eq_dec (status e) 202) as [H202|H202].
    { rewrite poll_pending_step by (exists e; auto).
      destruct (Hrnd (drawn (dispatched (check_request id) st)))
        as [Hu0 Hu1].
      pose proof (wait_slept E retries est _ Hu0 Hu1 Hest) as Hw.
      rewrite dispatched_trace, slept_app, slept_cons in Hw.
      change (slept []) with (0 # 1) in Hw.
      pose proof (backoff_budget_nonneg budget (retries + 1)) as Hnn.
      destruct (_wait E _ _ _ _ _) as [[x|b] st2]; cbn [snd] in *.
      - cbn [backoff_budget]. lra.
      - assert (Hr' : 0 <= retries + 1) by lia.
        pose proof (IH (retries + 1) id est st2 Hrnd Hest Hr') as Hrest.
        replace (retries + 1 =? 0) with false in Hrest by (symmetry; lia).
        cbn [backoff_budget]. lra. }
    destruct (Z.eq_dec (status e) 429) as [H429|H429].
    { rewrite (poll_rate_limited E _ _ _ _ _ e Ho H429). exact Hone. }
    rewrite (poll_rejected E _ _ _ _ _ e Ho H200 H202 H429). exact Hone.
Qed.

(** X5. With random numbers drawn from [0, 1] and a non-negative estimated
    time, the sleeps that [get_analysis] itself makes through [_wait] add
    up, in every run, to at most the estimated time plus the sum of
    min(40, 0.1 * 2^k) over the attempts [k < max_retries]: 0.7 seconds
    for the default of 3 retries, 291.1 seconds for the 15 retries of the
    scan methods.  The pauses the transport makes below a call of the
    session are not part of the log and not of this bound. *)
Theorem get_analysis_sleep_bound (E : Env) (st : St) (id : JSON)
    (estimated_time : option Q) (max_retries : Z) :
  (forall n, (0 <= rnd E n)%Q /\ (rnd E n <= 1)%Q) ->
  (0 <= default default_estimated_time estimated_time)%Q ->
  let run := get_analysis E id estimated_time (Some max_retries) st in
  (slept (trace (snd run))
   <= slept (trace st) + default default_estimated_time estimated_time
      + backoff_budget (Z.to_nat max_retries) 0)%Q /\
  (backoff_budget 3 0 == 7 # 10)%Q /\
  (backoff_budget 15 0 == 2911 # 10)%Q.
Proof.
  intros Hrnd Hest run. subst run.
  split; [|split; reflexivity].
  change (get_analysis E id estimated_time (Some max_retries))
    with (poll E (Z.to_nat max_retries) 0 id
               (default default_estimated_time estimated_time)).
  apply (poll_slept E _ 0 id _ st Hrnd Hest). lia.
Qed.

Lemma get_analysis_sleep_bound_witness :
  (slept (trace (snd (get_analysis never_done (JStr "X") (Some (5 # 1))
                                   (Some 3%Z) start)))
   <= (5 # 1) + (7 # 10))%Q.
Proof.
  assert (Hrnd : forall n, (0 <= rnd never_done n)%Q
                           /\ (rnd never_done n <= 1)%Q).
  { intros n. split; cbn; discriminate. }
  assert (Hest : (0 <= default default_estimated_time (Some (5 # 1)))%Q).
  { cbn. discriminate. }
  pose proof (get_analysis_sleep_bound never_done start (JStr "X")
                (Some (5 # 1)) 3 Hrnd Hest) as H.
  cbn zeta in H. destruct H as (H & H3 & _).
  change (Z.to_nat 3) with 3%nat in H. rewrite H3 in H.
  change (slept (trace start)) with (0 # 1) in H.
  change (default default_estimated_time (Some (5 # 1))) with (5 # 1) in H.
  lra.
Defined.
(** ** When the decorator returns *)

(** X6. The decorator returns an envelope exactly when the response has a
    [content-type] header, its body decodes if that header names JSON,
    and, in case it carries [x-ratelimit-remaining], it also carries
    [x-ratelimit-limit] and [x-ratelimit-reset] and all three can be
    read. *)
Theorem envelope_returns_iff (E : Env) (base path : string)
    (response : HttpResponse) :
  (exists e, envelope E base path response = inr e) <->
  match headers response !! "x-ratelimit-remaining" with
  | None => True
  | Some r =>
      exists l t,
        headers response !! "x-ratelimit-limit" = Some l /\
        is_Some (py_int E l) /\
        is_Some (py_int E r) /\
        headers response !! "x-ratelimit-reset" = Some t /\
        is_Some (strptime E t "%d-%m-%Y %H:%M:%S")
  end /\
  exists ct,
    headers response !! "content-type" = Some ct /\
    (fst (_parse_content_type_header E ct) = "application/json" ->
       is_Some (json_loads E (body response))).
Proof.
  unfold envelope, quota_of, header, content_of. split.
  - intros [e H].
    destruct (headers response !! "x-ratelimit-remaining") as [r|] eqn:Hr;
      cbn [rbind orraise] in H; repeat case_raise H.
    + split; [eauto 10|].
      eexists. split; [reflexivity|]. intros Hm.
      destruct (decide _); [|contradiction]. case_raise H. eauto.
    + split; [exact I|].
      eexists. split; [reflexivity|]. intros Hm.
      destruct (decide _); [|contradiction]. case_raise H. eauto.
  - intros [Hq (ct & Hct & Hj)].
    assert (Hc : exists c,
               (if decide ((_parse_content_type_header E ct).1
                           = "application/json")
                then let? j := orraise JSONDecodeError
                                       (json_loads E (body response)) in
                     inr (CJson j)
                else inr (CBytes (body response))) = inr c).
    { destruct (decide _) as [Hm|Hm]; [|eauto].
      destruct (Hj Hm) as [j ->]. cbn. eauto. }
    destruct Hc as [c Hc].
    destruct (headers response !! "x-ratelimit-remaining") as [r|] eqn:Hr.
    + destruct Hq as (l & t & Hl & [nl Hnl] & [nr Hnr] & Ht & [d Hd]).
      rewrite Hl. cbn [rbind orraise]. rewrite Hnl. cbn [rbind orraise].
      rewrite Hnr. cbn [rbind orraise]. rewrite Ht. cbn [rbind orraise].
      rewrite Hd. cbn [rbind orraise]. rewrite Hct. cbn [rbind orraise].
      rewrite Hc. cbn. eauto.
    + rewrite Hct. cbn [rbind orraise]. rewrite Hc. cbn. eauto.
Qed.

(** X7. What the decorator raises on a response it cannot use.  With
    [x-ratelimit-remaining] present, a missing [x-ratelimit-limit] is a
    [KeyError] and an unreadable one a [ValueError], whatever the rest of
    the response.  Without rate-limit headers, a missing [content-type] is
    a [KeyError], and a JSON content type over a body that does not decode
    is a [JSONDecodeError]. *)
Theorem envelope_raises (E : Env) (base path : string)
    (response : HttpResponse) :
  (forall r,
     headers response !! "x-ratelimit-remaining" = Some r ->
     (headers response !! "x-ratelimit-limit" = None ->
        envelope E base path response = inl (KeyError "x-ratelimit-limit")) /\
     (forall l,
        headers response !! "x-ratelimit-limit" = Some l ->
        py_int E l = None ->
        envelope E base path response = inl ValueError)) /\
  (headers response !! "x-ratelimit-remaining" = None ->
     (headers response !! "content-type" = None ->
        envelope E base path response = inl (KeyError "content-type")) /\
     (forall ct,
        headers response !! "content-type" = Some ct ->
        fst (_parse_content_type_header E ct) = "application/json" ->
        json_loads E (body response) = None ->
        envelope E base path response = inl JSONDecodeError)).
Proof.
  unfold envelope, quota_of, header, content_of. split.
  - intros r ->. split.
    + intros ->. reflexivity.
    + intros l -> Hl. cbn [rbind orraise]. rewrite Hl. reflexivity.
  - intros ->. split.
    + intros ->. reflexivity.
    + intros ct -> Hm Hj. cbn [rbind orraise].
      destruct (decide _); [|contradiction]. rewrite Hj. reflexivity.
Qed.

Lemma envelope_raises_witness :
  envelope never_done "http://inlyse.test" "/ping"
           (mkHttpResponse 204 ∅ []) = inl (KeyError "content-type").
Proof.
  apply (proj2 (envelope_raises never_done "http://inlyse.test" "/ping"
                  (mkHttpResponse 204 ∅ []))); reflexivity.
Defined.

(** X8. The envelope of a check call carries the status code of the
    response and, as its endpoint, the base URL joined with the path
    template [/api/analysis/{id}] itself: the analysis id is put into the
    request path only, not into the envelope. *)
Theorem check_envelope (E : Env) (id : JSON) (st st' : St)
    (e : InlyseResponse) :
  check E id st = (inr e, st') ->
  status e = status_code (net E (sent st)) /\
  endpoint_url e = urljoin E (url (self st)) "/api/analysis/{id}" /\
  trace st' = trace st ++ [Sent (current_session st) (check_request id)].
Proof.
  rewrite check_run. intros H. injection H as Ho <-.
  rewrite dispatched_trace. unfold outcome, envelope in Ho.
  rewrite Nat.add_0_r in Ho.
  destruct (quota_of E _) as [x|q]; [discriminate Ho|].
  cbn [rbind] in Ho. unfold header in Ho. case_raise Ho.
  destruct (content_of E _ _) as [y|c]; [discriminate Ho|].
  injection Ho as <-. auto.
Qed.

Lemma check_envelope_witness :
  exists e st',
    check done_at_third (JStr "X") start = (inr e, st') /\
    status e = 202 /\
    endpoint_url e = "http://inlyse.test/api/analysis/{id}".
Proof.
  assert (H : check done_at_third (JStr "X") start
              = (inr (answer 202 (JObj [])),
                 snd (check done_at_third (JStr "X") start)))
    by reflexivity.
  destruct (check_envelope _ _ _ _ _ H) as (Hs & Hu & _).
  eexists _, _. split; [exact H|]. split; [exact Hs|exact Hu].
Defined.

(** ** Disarming *)

Lemma disarm_file_run (E : Env) filename data st :
  disarm_file E filename data st =
  (envelope E (url (self st)) "/api/files/disarm" (net E (sent st)),
   dispatched (mkRequest POST (Plain "/api/files/disarm") []
                         (Files filename data)) st).
Proof. unfold disarm_file. apply endpoint_post_run. Qed.

(** X9. [disarm] sends one request, the upload of the file to
    [/api/files/disarm], and nothing else.  It returns the envelope only
    when its status is exactly 200; status 429 raises
    [RateLimitExceeded] and every other status, 201 or 204 included,
    raises [InlyseApiError] with the content; an exception of the
    decorator is passed on. *)
Theorem disarm_outcome (E : Env) (filename : string)
    (data : list Byte.byte) (st : St) :
  let run := disarm E filename data st in
  let answer :=
    envelope E (url (self st)) "/api/files/disarm" (net E (sent st)) in
  trace (snd run) =
    trace st ++
    [Sent (current_session st)
          (mkRequest POST (Plain "/api/files/disarm") []
                     (Files filename data))] /\
  (forall e, fst run = inr e <-> answer = inr e /\ status e = 200) /\
  (forall e, answer = inr e -> status e = 429 ->
     fst run = inl (RateLimitExceeded rate_limit_msg)) /\
  (forall e, answer = inr e -> status e <> 200 -> status e <> 429 ->
     fst run = inl (InlyseApiError (content e))) /\
  (forall x, answer = inl x -> fst run = inl x).
Proof.
  cbn zeta. unfold disarm, bind. rewrite disarm_file_run.
  destruct (envelope E _ _ _) as [x|e0]; cbn [fst snd].
  - rewrite dispatched_trace. split; [reflexivity|].
    split; [intros e; split; [discriminate|intros [[=] _]]|].
    split; [discriminate|]. split; [discriminate|].
    intros x' [= <-]. reflexivity.
  - destruct (Z.eqb_spec (status e0) 200) as [H200|H200];
      cbn [fst snd ret raise].
    + rewrite dispatched_trace. split; [reflexivity|].
      split; [intros e; split;
                [intros [= <-]; auto|intros [[= <-] _]; reflexivity]|].
      split; [intros e [= <-] H; lia|].
      split; [intros e [= <-] H; contradiction|discriminate].
    + destruct (Z.eqb_spec (status e0) 429) as [H429|H429];
        cbn [fst snd ret raise];
        rewrite dispatched_trace; (split; [reflexivity|]).
      * split; [intros e; split;
                  [discriminate|intros [[= <-] H]; contradiction]|].
        split; [reflexivity|].
        split; [intros e [= <-] _ H; contradiction|discriminate].
      * split; [intros e; split;
                  [discriminate|intros [[= <-] H]; contradiction]|].
        split; [intros e [= <-] H; contradiction|].
        split; [intros e [= <-] _ _; reflexivity|discriminate].
Qed.


(** ** Scans *)

Lemma upload_run (E : Env) up st :
  upload_methods E up st =
  (envelope E (url (self st)) (upload_path up) (net E (sent st)),
   dispatched (upload_request up) st).
Proof.
  destruct up; cbn [upload_methods upload_path upload_request];
    unfold upload_file, upload_url, upload_owa; apply endpoint_post_run.
Qed.



Lemma upload_cases (E : Env) up max_retries st :
  _upload E up max_retries st =
  match envelope E (url (self st)) (upload_path up) (net E (sent st)) with
  | inl x => (inl x, dispatched (upload_request up) st)
  | inr response =>
      if status response =? 429
      then (inl (RateLimitExceeded rate_limit_msg),
            dispatched (upload_request up) st)
      else if (status response >? 299) || (status response <? 200)
      then (inl (InlyseApiError (content response)),
            dispatched (upload_request up) st)
      else
        match getitem (content response) "EstimatedAnalysisTime" with
        | inl x => (inl x, dispatched (upload_request up) st)
        | inr t =>
            match times_float t (2 # 10) with
            | inl x => (inl x, dispatched (upload_request up) st)
            | inr estimated_time =>
                match getitem (content response) "id" with
                | inl x => (inl x, dispatched (upload_request up) st)
                | inr id =>
                    get_analysis E id (Some estimated_time)
                                 (Some max_retries)
                                 (dispatched (upload_request up) st)
                end
            end
        end
  end.
Proof.
  unfold _upload, bind at 1. rewrite upload_run.
  destruct (envelope E _ _ _) as [x|response]; [reflexivity|].
  destruct (status response =? 429); [reflexivity|].
  destruct ((status response >? 299) || (status response <? 200));
    [reflexivity|].
  unfold bind, lift.
  destruct (getitem (content response) "EstimatedAnalysisTime") as [x|t];
    [reflexivity|].
  destruct (times_float t (2 # 10)) as [x|q]; [reflexivity|].
  destruct (getitem (content response) "id") as [x|id]; reflexivity.
Qed.

(** An envelope a scan returns is the outcome of one of its checks, the
    first that was not answered 202, and that check was answered 200. *)
Lemma upload_returns_check (E : Env) up max_retries st e st' :
  _upload E up max_retries st = (inr e, st') ->
  exists k,
    Z.of_nat k < max_retries /\
    (forall j, (j < k)%nat ->
       pending E (dispatched (upload_request up) st) j) /\
    outcome E (dispatched (upload_request up) st) k = inr e /\
    status e = 200.
Proof.
  rewrite upload_cases. intros H.
  destruct (envelope E _ _ _) as [x|response]; [discriminate H|].
  destruct (status response =? 429); [discriminate H|].
  destruct ((status response >? 299) || (status response <? 200));
    [discriminate H|].
  destruct (getitem (content response) "EstimatedAnalysisTime") as [x|t];
    [discriminate H|].
  destruct (times_float t (2 # 10)) as [x|q]; [discriminate H|].
  destruct (getitem (content response) "id") as [x|id]; [discriminate H|].
  change (get_analysis E id (Some q) (Some max_retries))
    with (poll E (Z.to_nat max_retries) 0 id q) in H.
  destruct (poll_returns E _ _ _ _ _ _ _ H)
    as (k & Hk & _ & _ & Hpre & Ho & Hs & _).
  exists k. split; [lia|]. split; [exact Hpre|]. split; [exact Ho|exact Hs].
Qed.

(** An envelope a scan returns comes from a check answered 200. *)
Lemma upload_returns (E : Env) up max_retries st e st' :
  _upload E up max_retries st = (inr e, st') -> status e = 200.
Proof.
  intros H. destruct (upload_returns_check E _ _ _ _ _ H)
    as (k & _ & _ & _ & Hs). exact Hs.
Qed.

(** X11. Whatever the service answers, a scan logs its upload first and
    after it only sleeps and check calls of one analysis, all on the
    session of the upload, and it makes at most [max_retries] check
    calls.  An envelope it returns is the one the decorator made of the
    answer to one of those check calls, the [k]-th call after the upload
    for some [k < max_retries]: every check call before it was answered
    202 and this one 200. *)
Theorem upload_log (E : Env) (up : Upload) (max_retries : Z) (st : St) :
  let run := _upload E up max_retries st in
  let s := current_session st in
  (exists tr id,
     trace (snd run) = trace st ++ Sent s (upload_request up) :: tr /\
     Forall (poll_event s id) tr /\
     Z.of_nat (requests tr) <= Z.max 0 max_retries) /\
  (forall e, fst run = inr e ->
     exists k,
       Z.of_nat k < max_retries /\
       (forall j, (j < k)%nat ->
          exists e',
            envelope E (url (self st)) "/api/analysis/{id}"
                     (net E (S (sent st) + j)%nat) = inr e' /\
            status e' = 202) /\
       envelope E (url (self st)) "/api/analysis/{id}"
                (net E (S (sent st) + k)%nat) = inr e /\
       status e = 200).
Proof.
  cbn zeta. split.
  2:{ intros e He. destruct (_upload E up max_retries st) as [r st'] eqn:Hr.
      cbn in He. subst r.
      destruct (upload_returns_check E _ _ _ _ _ Hr)
        as (k & Hk & Hpre & Ho & Hs).
      unfold pending, outcome in *.
      rewrite dispatched_url, dispatched_sent in *.
      exists k. auto. }
  rewrite upload_cases.
  assert (Hnone : exists tr id,
    trace (dispatched (upload_request up) st)
      = trace st ++ Sent (current_session st) (upload_request up) :: tr /\
    Forall (poll_event (current_session st) id) tr /\
    Z.of_nat (requests tr) <= Z.max 0 max_retries).
  { exists [], JNull. rewrite dispatched_trace.
    repeat split; [constructor|cbn; lia]. }
  destruct (envelope E _ _ _) as [x|response]; [exact Hnone|].
  destruct (status response =? 429); [exact Hnone|].
  destruct ((status response >? 299) || (status response <? 200));
    [exact Hnone|].
  destruct (getitem (content response) "EstimatedAnalysisTime") as [x|t];
    [exact Hnone|].
  destruct (times_float t (2 # 10)) as [x|q]; [exact Hnone|].
  destruct (getitem (content response) "id") as [x|id]; [exact Hnone|].
  change (get_analysis E id (Some q) (Some max_retries))
    with (poll E (Z.to_nat max_retries) 0 id q).
  destruct (poll_log E (Z.to_nat max_retries) 0 id q
              (dispatched (upload_request up) st))
    as ((tr & Htr & Hev & Hreq) & _).
  rewrite dispatched_session in Hev.
  exists tr, id. rewrite Htr, dispatched_trace, <- app_assoc.
  repeat split; auto. lia.
Qed.

(** ** Closing *)

(** X12. Closing is idempotent: a second [close()] changes nothing, so a
    session is recorded as closed once; and on a client that holds no
    session [close()] closes nothing. *)
Theorem close_idempotent (st : St) :
  snd (close (snd (close st))) = snd (close st) /\
  (_api (self st) = None -> closed (snd (close st)) = closed st) /\
  _api (self (snd (close st))) = None.
Proof.
  unfold close, set_api.
  destruct (_api (self st)) as [s|] eqn:Ha; cbn; rewrite ?Ha; auto.
  split; [reflexivity|]. split; [discriminate|reflexivity].
Qed.

(** ** Sessions across calls *)

Lemma grows_refl st : grows st st.
Proof. split; auto. Qed.

Lemma grows_same st st' :
  self st' = self st -> next_sid st' = next_sid st ->
  closed st' = closed st -> grows st st'.
Proof. intros Hs Hn Hc. split; auto. Qed.

Lemma grows_trans st1 st2 st3 :
  grows st1 st2 -> grows st2 st3 -> grows st1 st3.
Proof.
  intros [Hc1 H1] [Hc2 H2]. split; [congruence|].
  destruct H1 as [[Hs1 Hn1]|(Hnone & (s & Hs & Hsid) & Hn1)];
    destruct H2 as [[Hs2 Hn2]|(Hnone2 & (s2 & Hs2 & Hsid2) & Hn2)].
  - left. split; congruence.
  - right. rewrite Hs1, Hn1 in *. eauto 6.
  - right. rewrite Hs2, Hn2. eauto 6.
  - congruence.
Qed.

Lemma steady_ret {A} (a : A) : steady (ret a).
Proof. intros st. apply grows_refl. Qed.

Lemma steady_raise {A} (x : Exn) : steady (@raise A x).
Proof. intros st. apply grows_refl. Qed.

Lemma steady_lift {A} (r : R A) : steady (lift r).
Proof. intros st. apply grows_refl. Qed.

Lemma steady_get_self : steady get_self.
Proof. intros st. apply grows_refl. Qed.

Lemma steady_emit ev : steady (emit ev).
Proof. intros st. now apply grows_same. Qed.

Lemma steady_sleep seconds : steady (sleep seconds).
Proof.
  intros st. unfold sleep.
  destruct (seconds ?= 0)%Q; try apply grows_refl;
    destruct (nanoseconds seconds ?= sleep_ns_limit)%Q;
    first [apply grows_refl|now apply grows_same].
Qed.

Lemma steady_random (E : Env) : steady (random E).
Proof. intros st. now apply grows_same. Qed.

Lemma steady_request (E : Env) s r : steady (request E s r).
Proof. intros st. now apply grows_same. Qed.

Lemma steady_api : steady api.
Proof.
  intros st. unfold api.
  destruct (_api (self st)) as [s|] eqn:Ha; [apply grows_refl|].
  split; [reflexivity|]. right. cbn. eauto 6.
Qed.

Lemma steady_bind {A B} (m : M A) (k : A -> M B) :
  steady m -> (forall a, steady (k a)) -> steady (bind m k).
Proof.
  intros Hm Hk st. unfold bind. specialize (Hm st).
  destruct (m st) as [[x|a] st1]; cbn in *; [exact Hm|].
  eapply grows_trans; [exact Hm|apply Hk].
Qed.

Ltac steady :=
  repeat first
    [ apply steady_ret | apply steady_raise | apply steady_lift
    | apply steady_get_self | apply steady_emit | apply steady_sleep
    | apply steady_random
    | apply steady_request | apply steady_api
    | apply steady_bind; [|intros ?]
    | match goal with
      | |- steady (if ?b then _ else _) => destruct b
      | |- steady (match ?o with _ => _ end) => destruct o
      end ].

Lemma steady_endpoint (E : Env) path func :
  steady (func path) -> steady (endpoint E path func).
Proof. intros Hf. unfold endpoint. steady. exact Hf. Qed.

Lemma steady_api_get (E : Env) path params : steady (api_get E path params).
Proof. unfold api_get. steady. Qed.

Lemma steady_api_post (E : Env) path payload :
  steady (api_post E path payload).
Proof. unfold api_post. steady. Qed.

Lemma steady_wait (E : Env) attempt avg_time cap base :
  steady (_wait E attempt avg_time cap base).
Proof. unfold _wait, uniform. steady. Qed.

Lemma steady_check (E : Env) id : steady (check E id).
Proof. apply steady_endpoint, steady_api_get. Qed.

Lemma steady_poll (E : Env) budget : forall retries id est,
  steady (poll E budget retries id est).
Proof.
  induction budget as [|budget IH]; intros retries id est; cbn [poll].
  - apply steady_raise.
  - apply steady_bind; [apply steady_check|intros response].
    steady; try apply steady_wait; apply IH.
Qed.

Lemma steady_upload (E : Env) up max_retries :
  steady (_upload E up max_retries).
Proof.
  unfold _upload. apply steady_bind.
  - destruct up; apply steady_endpoint, steady_api_post.
  - intros response. steady. apply steady_poll.
Qed.

Lemma steady_perform (E : Env) c : steady (perform E c).
Proof.
  destruct c; cbn [perform].
  all: try (apply steady_endpoint;
            first [apply steady_api_get|apply steady_api_post]).
  all: try apply steady_poll.
  all: try apply steady_upload.
  all: try (unfold disarm; apply steady_bind;
            [apply steady_endpoint, steady_api_post
            |intros response; steady]).
  unfold list_analyses. apply steady_endpoint.
  unfold warning. steady; apply steady_api_get.
Qed.

Lemma steady_run_step (E : Env) s :
  keeps_session s -> steady (run_step E s).
Proof.
  destruct s as [c| |[v|]|path params|path payload]; cbn [keeps_session];
    intros Hk; try contradiction; cbn [run_step api_setter].
  - apply steady_bind; [apply steady_perform|intros e; apply steady_ret].
  - apply steady_bind; [apply steady_ret|intros u; apply steady_ret].
  - apply steady_bind; [apply steady_api_get|intros r; apply steady_ret].
  - apply steady_bind; [apply steady_api_post|intros r; apply steady_ret].
Qed.

Lemma steady_run_steps (E : Env) steps :
  Forall keeps_session steps -> steady (run_steps E steps).
Proof.
  induction 1 as [|s steps Hs _ IH]; cbn [run_steps]; [apply steady_ret|].
  apply steady_bind; [now apply steady_run_step|intros o].
  apply steady_bind; [exact IH|intros os; apply steady_ret].
Qed.

Lemma grows_wf st st' : grows st st' -> wf st -> wf st'.
Proof.
  intros [Hc H] [Hs Hcl]. unfold wf. rewrite Hc.
  destruct H as [[-> ->]|(Hnone & (s & Ha & Hsid) & ->)]; [auto|].
  split.
  - intros s' Hs'. rewrite Ha in Hs'. injection Hs' as <-. lia.
  - eapply Forall_impl; [exact Hcl|]. cbn. lia.
Qed.

Lemma grows_accounted st st' : grows st st' -> accounted st -> accounted st'.
Proof.
  intros [Hc H] Hacc i Hi. rewrite Hc.
  destruct H as [[Hs Hn]|(Hnone & (s & Ha & Hsid) & Hn)].
  - rewrite Hs. apply Hacc. lia.
  - rewrite Hn in Hi.
    destruct (Nat.eq_dec i (next_sid st)) as [->|Hne]; [eauto|].
    destruct (Hacc i) as [Hin|(s' & Hs' & _)]; [lia|auto|congruence].
Qed.

Lemma grows_next_sid st st' :
  grows st st' -> (next_sid st <= next_sid st' <= S (next_sid st))%nat.
Proof. intros [_ [[_ ->]|(_ & _ & ->)]]; lia. Qed.

Lemma close_next_sid st : next_sid (snd (close st)) = next_sid st.
Proof. unfold close, set_api. destruct (_api (self st)); reflexivity. Qed.

(** After [close()] every session created so far is closed. *)
Lemma close_accounts st :
  accounted st ->
  forall i, (i < next_sid (snd (close st)))%nat ->
    i ∈ closed (snd (close st)).
Proof.
  intros Hacc i Hi. unfold close, set_api in *.
  destruct (_api (self st)) as [s|] eqn:Ha; cbn in *.
  - destruct (Hacc i Hi) as [Hin|(s' & Hs' & Hsid)].
    + now apply list_elem_of_further.
    + assert (s' = s) as -> by congruence. subst i.
      apply list_elem_of_here.
  - destruct (Hacc i Hi) as [Hin|(s' & Hs' & _)]; [auto|congruence].
Qed.

Lemma kept_grows st st' : wf st -> accounted st -> grows st st' -> kept st st'.
Proof.
  intros Hwf Hacc Hg. split; [exact (grows_wf _ _ Hg Hwf)|].
  split; [exact (grows_accounted _ _ Hg Hacc)|].
  apply (grows_next_sid _ _ Hg).
Qed.

Lemma kept_close st : wf st -> accounted st -> kept st (snd (close st)).
Proof.
  intros Hwf Hacc. split; [apply wf_close, Hwf|].
  split; [|rewrite close_next_sid; lia].
  intros i Hi. left. now apply close_accounts.
Qed.

Lemma run_step_kept (E : Env) s st :
  wf st -> accounted st -> kept st (snd (run_step E s st)).
Proof.
  intros Hwf Hacc.
  destruct s as [c| |[v|]|path params|path payload].
  1,3,5,6: apply kept_grows; auto; apply steady_run_step; exact I.
  all: cbn [run_step api_setter]; unfold bind, ret;
    destruct (close st) as [[x|u] st1] eqn:Hc;
    pose proof (kept_close st Hwf Hacc) as Hk; rewrite Hc in Hk;
    exact Hk.
Qed.

Lemma run_steps_kept (E : Env) steps : forall st,
  wf st -> accounted st -> kept st (snd (run_steps E steps st)).
Proof.
  induction steps as [|s steps IH]; intros st Hwf Hacc; cbn [run_steps].
  - unfold ret. cbn [snd]. split; [exact Hwf|split; [exact Hacc|lia]].
  - unfold bind at 1.
    pose proof (run_step_kept E s st Hwf Hacc) as Hk.
    destruct (run_step E s st) as [[x|o] st1]; cbn [snd] in *; [exact Hk|].
    destruct Hk as (Hwf1 & Hacc1 & Hn1).
    pose proof (IH st1 Hwf1 Hacc1) as Hk2.
    unfold bind, ret.
    destruct (run_steps E steps st1) as [[x|os] st2]; cbn [snd] in *;
      destruct Hk2 as (Hwf2 & Hacc2 & Hn2);
      (split; [exact Hwf2|split; [exact Hacc2|lia]]).
Qed.

(** X13. A [with] block whose body uses the client step by step, whichever
    steps and however many (calls of the public methods that return an
    envelope, [close()], assignments to [api], requests on the session of
    [api]), ends, by return or by exception, with a client that holds no
    session and with every session ever created closed.  The result of
    the block is the result of its body.  The body may create several
    sessions, one after each close; as long as it neither calls [close()]
    nor assigns [None] to [api], the block creates at most one. *)
Theorem with_client_releases (E : Env) (steps : list Step) (st : St) :
  wf st -> accounted st ->
  let run := with_client (run_steps E steps) st in
  fst run = fst (run_steps E steps st) /\
  _api (self (snd run)) = None /\
  (forall i, (i < next_sid (snd run))%nat -> i ∈ closed (snd run)) /\
  (next_sid st <= next_sid (snd run))%nat /\
  (Forall keeps_session steps ->
     (next_sid (snd run) <= S (next_sid st))%nat) /\
  wf (snd run).
Proof.
  intros Hwf Hacc run. subst run. unfold with_client, __exit__.
  pose proof (run_steps_kept E steps st Hwf Hacc) as (Hwf1 & Hacc1 & Hn1).
  pose proof (steady_run_steps E steps) as Hg.
  destruct (run_steps E steps st) as [r st1] eqn:Hrun. cbn [fst snd] in *.
  split; [reflexivity|].
  split; [unfold close, set_api; destruct (_api (self st1)); reflexivity|].
  split; [now apply close_accounts|].
  rewrite close_next_sid.
  split; [exact Hn1|]. split; [|apply wf_close, Hwf1].
  intros Hkeep. specialize (Hg Hkeep st). rewrite Hrun in Hg.
  apply (grows_next_sid _ _ Hg).
Qed.

Lemma with_client_releases_witness :
  let run :=
    with_client
      (run_steps done_at_third
         [do_call call_ping; do_close; do_call call_ping])
      start in
  _api (self (snd run)) = None /\ closed (snd run) = [1%nat; 0%nat] /\
  next_sid (snd run) = 2%nat.
Proof.
  assert (Hwf : wf start).
  { split; [intros s Hs; discriminate Hs|constructor]. }
  assert (Hacc : accounted start).
  { intros i Hi. cbn in Hi. lia. }
  pose proof (with_client_releases done_at_third
                [do_call call_ping; do_close; do_call call_ping]
                start Hwf Hacc) as H.
  cbn zeta in *. destruct H as (_ & Hnone & _).
  split; [exact Hnone|split; reflexivity].
Defined.

(** ** The pre-checks of the command line *)

Lemma pre_checks_run (E : Env) st :
  let st1 := dispatched ping_request st in
  let st2 := dispatched stats_request st1 in
  pre_checks E st =
  match envelope E (url (self st)) "/ping" (net E (sent st)) with
  | inl x => (inl x, st1)
  | inr _ =>
      match envelope E (url (self st)) "/api/stats" (net E (S (sent st)))
      with
      | inl x => (inl x, st2)
      | inr e =>
          (if status e =? 401 then inr (inl Unauthorized)
           else
             match rate_limit e with
             | None => inl TypeError
             | Some q =>
                 if (status e =? 429) || (remaining q =? 0)
                 then inr (inl (RateLimited (reset q)))
                 else inr (inr (remaining q))
             end,
           st2)
      end
  end.
Proof.
  cbn zeta. unfold pre_checks, bind at 1, ping.
  rewrite (endpoint_get_run E "/ping" Plain [] st).
  fold ping_request.
  destruct (envelope E (url (self st)) "/ping" _) as [x|e0]; [reflexivity|].
  unfold bind at 1, stats.
  rewrite (endpoint_get_run E "/api/stats" Plain []
             (dispatched ping_request st)).
  fold stats_request. rewrite dispatched_url, dispatched_sent.
  destruct (envelope E (url (self st)) "/api/stats" _) as [x|e];
    [reflexivity|].
  destruct (status e =? 401); [reflexivity|].
  unfold bind, lift, ret, rate_limit_item.
  destruct (status e =? 429); destruct (rate_limit e) as [q|]; cbn [orb];
    try reflexivity.
  destruct (remaining q =? 0); reflexivity.
Qed.

Lemma main_run (E : Env) license_key base timeout st :
  let c := WebClient_init license_key (Some base) (Some (TFloat timeout)) in
  let st0 :=
    mkSt c (trace st) (sent st) (drawn st) (next_sid st) (closed st) in
  main E license_key base timeout st =
  (fst (handled (pre_checks E) st0),
   snd (close (snd (pre_checks E st0)))).
Proof.
  cbn zeta. unfold main, bind, construct, with_client, __exit__, handled.
  cbn [fst snd].
  destruct (pre_checks E _) as [[x|r] st']; reflexivity.
Qed.

Lemma main_result (E : Env) license_key base timeout st :
  fst (main E license_key base timeout st) =
  inr match envelope E base "/ping" (net E (sent st)) with
      | inl _ => inl NotHandled
      | inr _ =>
          match envelope E base "/api/stats" (net E (S (sent st))) with
          | inl _ => inl NotHandled
          | inr e =>
              if status e =? 401 then inl Unauthorized
              else
                match rate_limit e with
                | None => inl NotHandled
                | Some q =>
                    if (status e =? 429) || (remaining q =? 0)
                    then inl (RateLimited (reset q))
                    else inr (remaining q)
                end
          end
      end.
Proof.
  rewrite main_run. cbn zeta. unfold handled. rewrite pre_checks_run.
  cbn [self url WebClient_init sent].
  change (default "https://malware.ai" (Some base)) with base.
  destruct (envelope E base "/ping" _) as [x|pong]; [reflexivity|].
  destruct (envelope E base "/api/stats" _) as [x|e]; [reflexivity|].
  destruct (status e =? 401); [reflexivity|].
  destruct (rate_limit e) as [q|]; [|reflexivity].
  destruct ((status e =? 429) || (remaining q =? 0)); reflexivity.
Qed.

(** X14. The pre-checks of [main] let the command go on, with
    [REMAINING] set to [n], exactly when the decorator returns for the
    answer to the ping, whatever its status, and returns for the answer
    to the stats request an envelope whose status is neither 401 nor 429
    and whose rate limit is present with [remaining = n] other than 0. *)
Theorem main_goes_on_iff (E : Env) (license_key base : string)
    (timeout : Q) (st : St) (n : Z) :
  fst (main E license_key base timeout st) = inr (inr n) <->
  exists pong e q,
    envelope E base "/ping" (net E (sent st)) = inr pong /\
    envelope E base "/api/stats" (net E (S (sent st))) = inr e /\
    status e <> 401 /\ status e <> 429 /\
    rate_limit e = Some q /\ remaining q = n /\ n <> 0.
Proof.
  rewrite main_result.
  destruct (envelope E base "/ping" _) as [x|pong].
  { split; [discriminate|]. intros (? & ? & ? & [=] & _). }
  destruct (envelope E base "/api/stats" _) as [x|e].
  { split; [discriminate|]. intros (? & ? & ? & _ & [=] & _). }
  destruct (Z.eqb_spec (status e) 401) as [H401|H401].
  { split; [discriminate|]. intros (? & ? & ? & _ & [= <-] & H & _).
    contradiction. }
  destruct (rate_limit e) as [q|] eqn:Hq.
  2:{ split; [discriminate|].
      intros (? & ? & ? & _ & [= <-] & _ & _ & H & _). congruence. }
  destruct (Z.eqb_spec (status e) 429) as [H429|H429]; cbn [orb].
  { split; [discriminate|].
    intros (? & ? & ? & _ & [= <-] & _ & H & _). contradiction. }
  destruct (Z.eqb_spec (remaining q) 0) as [H0|H0].
  { split; [discriminate|].
    intros (? & ? & q' & _ & [= <-] & _ & _ & Hq' & Hr & Hn).
    rewrite Hq in Hq'. injection Hq' as <-. congruence. }
  split.
  - intros [= <-]. exists pong, e, q. repeat split; auto.
  - intros (? & ? & q' & _ & [= <-] & _ & _ & Hq' & Hr & _).
    rewrite Hq in Hq'. injection Hq' as <-. now rewrite Hr.
Qed.

(** X15. How the pre-checks of [main] end the command.  A stats answer
    with status 401 gives the message for an unauthorized key.  An
    envelope with a rate limit and status 429, or with nothing remaining,
    gives the rate-limit message with its reset time.  An envelope
    without a rate limit, unless its status is 401, gives the message for
    an exception not handled, and so does an exception of the decorator
    on the ping or on the stats answer. *)
Theorem main_exits (E : Env) (license_key base : string) (timeout : Q)
    (st : St) :
  let result := fst (main E license_key base timeout st) in
  let ping_answer := envelope E base "/ping" (net E (sent st)) in
  let stats_answer :=
    envelope E base "/api/stats" (net E (S (sent st))) in
  (forall x, ping_answer = inl x -> result = inr (inl NotHandled)) /\
  (forall pong, ping_answer = inr pong ->
     (forall x, stats_answer = inl x -> result = inr (inl NotHandled)) /\
     (forall e, stats_answer = inr e ->
        (status e = 401 -> result = inr (inl Unauthorized)) /\
        (status e <> 401 -> rate_limit e = None ->
           result = inr (inl NotHandled)) /\
        (forall q, status e <> 401 -> rate_limit e = Some q ->
           status e = 429 \/ remaining q = 0 ->
           result = inr (inl (RateLimited (reset q)))))).
Proof.
  cbn zeta. rewrite main_result. split.
  - intros x ->. reflexivity.
  - intros pong ->. split; [intros x ->; reflexivity|].
    intros e ->. split; [intros ->; reflexivity|].
    split.
    + intros H401 ->.
      destruct (Z.eqb_spec (status e) 401); [contradiction|reflexivity].
    + intros q H401 -> Hlim.
      destruct (Z.eqb_spec (status e) 401); [contradiction|].
      replace ((status e =? 429) || (remaining q =? 0)) with true;
        [reflexivity|].
      symmetry. apply orb_true_iff. destruct Hlim; [left|right]; lia.
Qed.

(** X16. The pre-checks of [main] work on a session of their own: they
    create one session, send the ping on it and, if the decorator
    returned for the ping, the stats request, and nothing else; when they
    end, that session is closed and the client holds none. *)
Theorem main_session (E : Env) (license_key base : string) (timeout : Q)
    (st : St) :
  let st' := snd (main E license_key base timeout st) in
  let s := next_sid st in
  trace st' =
    trace st ++
    Sent s ping_request ::
    match envelope E base "/ping" (net E (sent st)) with
    | inl _ => []
    | inr _ => [Sent s stats_request]
    end /\
  _api (self st') = None /\
  closed st' = s :: closed st /\
  next_sid st' = S s.
Proof.
  cbn zeta. rewrite main_run. cbn zeta. cbn [snd]. rewrite pre_checks_run.
  cbn [self url WebClient_init sent].
  change (default "https://malware.ai" (Some base)) with base.
  destruct (envelope E base "/ping" _) as [x|pong]; [cbn; auto|].
  destruct (envelope E base "/api/stats" _) as [x|e]; cbn [snd].
  - cbn. rewrite <- app_assoc. auto.
  - cbn. rewrite <- app_assoc. auto.
Qed.

Lemma main_goes_on_iff_witness :
  fst (main (env [reply 500 "error"; metered]) "test" "http://inlyse.test"
            (5 # 1) start) = inr (inr 99).
Proof.
  apply (proj2 (main_goes_on_iff (env [reply 500 "error"; metered]) "test"
                  "http://inlyse.test" (5 # 1) start 99)).
  exists (mkInlyseResponse "http://inlyse.test/ping" 500 None
            ("application/json", ∅) (CJson (JStr "not found"))),
         (mkInlyseResponse "http://inlyse.test/api/stats" 200
            (Some (mkQuota 100 99
                           (mkDatetime 2023 3 20 22 16 47 (Some utc))))
            ("application/json", ∅) (CJson result_doc)),
         (mkQuota 100 99 (mkDatetime 2023 3 20 22 16 47 (Some utc))).
  repeat split; try reflexivity; discriminate.
Defined.

(** ** One asset of a batch *)

Lemma disarm_returns (E : Env) filename data st e st' :
  disarm E filename data st = (inr e, st') -> status e = 200.
Proof.
  unfold disarm, bind.
  destruct (disarm_file E filename data st) as [[x|e0] st1];
    [discriminate|].
  destruct (Z.eqb_spec (status e0) 200) as [H200|H200].
  - intros [= <- _]. exact H200.
  - destruct (status e0 =? 429); discriminate.
Qed.

Lemma library_returns (m : M InlyseResponse) st e st' :
  library m st = (inr e, st') -> m st = (inr e, st').
Proof.
  unfold library. destruct (m st) as [[x|e0] st1]; [discriminate|].
  now intros [= <- <-].
Qed.

(** X17. [_api_wrapper] reports a success only for one of its four
    methods, under the asset it was given and with an envelope of status
    200.  A method it does not know is reported as a failure with
    [KeyError], and a file that cannot be read as a failure with the
    error of the file system; in both cases nothing is sent. *)
Theorem api_wrapper_outcome (E : Env)
    (read : string -> option (list Byte.byte)) (asset method : string)
    (st : St) :
  let run := _api_wrapper E read asset method st in
  (forall a e,
     fst run = ScanSuccess a e ->
     a = asset /\ status e = 200 /\
     method ∈ ["scan_file"; "scan_url"; "disarm_file"; "get_analyses"]) /\
  (method ∉ ["scan_file"; "scan_url"; "disarm_file"; "get_analyses"] ->
     run = (ScanFailure asset (Library (KeyError method)), st)) /\
  (method = "scan_file" \/ method = "disarm_file" ->
   read asset = None ->
     run = (ScanFailure asset (OSError asset), st)).
Proof.
  cbn zeta. unfold _api_wrapper, mapper.
  destruct (String.eqb_spec method "scan_file") as [->|H1].
  { split; [|split].
    - intros a e. unfold _scan_file, with_file.
      destruct (read asset) as [data|]; [|discriminate].
      destruct (library _ st) as [[x|e0] st1] eqn:Hrun; [discriminate|].
      intros [= <- <-]. apply library_returns in Hrun.
      apply upload_returns in Hrun. repeat split; auto. set_solver.
    - intros Hn. exfalso. apply Hn. set_solver.
    - intros _ Hr. unfold _scan_file, with_file. now rewrite Hr. }
  destruct (String.eqb_spec method "scan_url") as [->|H2].
  { split; [|split].
    - intros a e. unfold _scan_url.
      destruct (library _ st) as [[x|e0] st1] eqn:Hrun; [discriminate|].
      intros [= <- <-]. apply library_returns in Hrun.
      apply upload_returns in Hrun. repeat split; auto. set_solver.
    - intros Hn. exfalso. apply Hn. set_solver.
    - intros [H|H]; discriminate H. }
  destruct (String.eqb_spec method "disarm_file") as [->|H3].
  { split; [|split].
    - intros a e. unfold _disarm_file, with_file.
      destruct (read asset) as [data|]; [|discriminate].
      destruct (library _ st) as [[x|e0] st1] eqn:Hrun; [discriminate|].
      intros [= <- <-]. apply library_returns in Hrun.
      apply disarm_returns in Hrun. repeat split; auto. set_solver.
    - intros Hn. exfalso. apply Hn. set_solver.
    - intros _ Hr. unfold _disarm_file, with_file. now rewrite Hr. }
  destruct (String.eqb_spec method "get_analyses") as [->|H4].
  { split; [|split].
    - intros a e. unfold _get_analyses.
      destruct (library _ st) as [[x|e0] st1] eqn:Hrun; [discriminate|].
      intros [= <- <-]. apply library_returns in Hrun.
      apply poll_returns in Hrun.
      destruct Hrun as (k & _ & _ & _ & _ & _ & Hs & _).
      repeat split; auto. set_solver.
    - intros Hn. exfalso. apply Hn. set_solver.
    - intros [H|H]; discriminate H. }
  split; [discriminate|]. split; [reflexivity|].
  intros [H|H]; contradiction.
Qed.

(** ** The log of a poll *)




